(** * Author's Voice: transcript accumulator and document store

    A shallow embedding of the two stateful cores of the application:

    - the React hook [useSpeechRecognition] (the second unit of
      [src/exportService.ts]), a reducer over the hook's state driven by
      the user's calls and by the events of the browser's speech
      recognition object;
    - the persistence layer [src/storageService.ts], a set of
      read-modify-write operations over [localStorage];

    and of the handlers of the component [App] ([src/App.tsx]) that
    pass the hook's transcript to the store.

    Strings are [String.string]; timestamps ([Date.now()], epoch
    milliseconds) are [Z]; [localStorage] is a [gmap string string]. *)

From Stdlib Require Import ZArith String Ascii List Lia.
From Stdlib Require Import DecimalString DecimalPos DecimalZ.
From stdpp Require Import base option list strings gmap sorting.

Set Warnings "-register-all".

Local Open Scope string_scope.
Local Open Scope list_scope.

#[local] Arguments String.append !_ _ / : simpl nomatch.

(* ===================================================================== *)
(** * Part I: the speech hook                                             *)
(* ===================================================================== *)

Module Speech.

(** ** Data of [src/types.ts] *)

(** [SpeechRecognitionAlternative]; the hook reads [transcript] only, the
    floating-point [confidence] is left out. *)
Record SpeechRecognitionAlternative := {
  transcript : string
}.

(** [SpeechRecognitionResult]: a flag and an indexed, never empty list of
    alternatives; [item0] is [result[0]]. *)
Record SpeechRecognitionResult := {
  isFinal : bool;
  item0 : SpeechRecognitionAlternative;
  items : list SpeechRecognitionAlternative
}.

Record SpeechRecognitionEvent := {
  results : list SpeechRecognitionResult;
  resultIndex : nat
}.

(** The methods of a [SpeechRecognition] object that the hook calls. *)
Inductive Call := CallStart | CallStop | CallAbort.

(** A [SpeechRecognition] object as the hook configures it, together
    with the calls it has received so far (oldest first). *)
Record SpeechRecognition := {
  continuous : bool;
  interimResults : bool;
  lang : string;
  calls : list Call
}.

Definition call (c : Call) (r : SpeechRecognition) : SpeechRecognition :=
  {| continuous := continuous r; interimResults := interimResults r;
     lang := lang r; calls := calls r ++ [c] |}.

(** ** The state of the hook: four [useState] cells and one [useRef] *)

Record HookState := {
  isListening : bool;
  error : option string;
  recognitionRef : option SpeechRecognition;
  confirmedText : string;
  interimText : string
}.

(** [useState(false)], [useState(null)], [useRef(null)], [useState('')]. *)
Definition initial : HookState :=
  {| isListening := false; error := None; recognitionRef := None;
     confirmedText := ""; interimText := "" |}.

Definition setIsListening (b : bool) (st : HookState) : HookState :=
  {| isListening := b; error := error st;
     recognitionRef := recognitionRef st;
     confirmedText := confirmedText st; interimText := interimText st |}.

Definition setError (e : option string) (st : HookState) : HookState :=
  {| isListening := isListening st; error := e;
     recognitionRef := recognitionRef st;
     confirmedText := confirmedText st; interimText := interimText st |}.

(** [setConfirmedText(prev => f prev)] and [setConfirmedText(text)]. *)
Definition setConfirmedText (f : string → string) (st : HookState) : HookState :=
  {| isListening := isListening st; error := error st;
     recognitionRef := recognitionRef st;
     confirmedText := f (confirmedText st); interimText := interimText st |}.

Definition setInterimText (s : string) (st : HookState) : HookState :=
  {| isListening := isListening st; error := error st;
     recognitionRef := recognitionRef st;
     confirmedText := confirmedText st; interimText := s |}.

Definition setRecognitionRef (r : option SpeechRecognition) (st : HookState)
  : HookState :=
  {| isListening := isListening st; error := error st;
     recognitionRef := r;
     confirmedText := confirmedText st; interimText := interimText st |}.

(** [const fullTranscript = confirmedText + interimText], returned by the
    hook as [transcript]. *)
Definition fullTranscript (st : HookState) : string :=
  confirmedText st +:+ interimText st.

(** ** Event handlers registered by [startListening] *)

Definition onstart (st : HookState) : HookState := setIsListening true st.

Definition onend (st : HookState) : HookState := setIsListening false st.

Definition permission_message : string :=
  "Microphone access denied or speech service unavailable.".

Definition unsupported_message : string :=
  "Speech recognition is not supported in this browser.".

Definition onerror (errorType : string) (st : HookState) : HookState :=
  let st := setIsListening false st in
  if String.eqb errorType "not-allowed"
     || String.eqb errorType "service-not-allowed"
  then setError (Some permission_message) st
  else if negb (String.eqb errorType "no-speech")
  then setError (Some ("Error occurred: " +:+ errorType)) st
  else st.

(** The [for] loop of [onresult]: [i] is the loop index, [n] the number
    of iterations left ([results.length - i]), the accumulator is
    [(newFinal, newInterim)]. *)
Fixpoint onresult_loop (rs : list SpeechRecognitionResult) (i : nat) (n : nat)
    (acc : string * string) : string * string :=
  match n with
  | O => acc
  | S n' =>
      match rs !! i with
      | Some r =>
          let acc' :=
            if isFinal r
            then (fst acc +:+ (transcript (item0 r) +:+ " "), snd acc)
            else (fst acc, snd acc +:+ transcript (item0 r)) in
          onresult_loop rs (S i) n' acc'
      | None => acc
      end
  end.

Definition onresult (event : SpeechRecognitionEvent) (st : HookState)
  : HookState :=
  let '(newFinal, newInterim) :=
    onresult_loop (results event) (resultIndex event)
      (length (results event) - resultIndex event) ("", "") in
  let st :=
    if negb (String.eqb newFinal "")
    then setConfirmedText (λ prev, prev +:+ newFinal) st
    else st in
  setInterimText newInterim st.

(** ** The functions the hook returns *)

(** [new SpeechRecognitionConstructor()] followed by the three
    assignments to [continuous], [interimResults] and [lang]. *)
Definition new_recognition : SpeechRecognition :=
  {| continuous := true; interimResults := true; lang := "en-US";
     calls := [] |}.

(** [supported] says whether [window.SpeechRecognition ||
    window.webkitSpeechRecognition] is defined. The previous object, once
    aborted, is no longer referenced. *)
Definition startListening (supported : bool) (st : HookState) : HookState :=
  let st := setError None st in
  if negb supported then setError (Some unsupported_message) st
  else
    let st :=
      match recognitionRef st with
      | Some r => setRecognitionRef (Some (call CallAbort r)) st
      | None => st
      end in
    let recognition := new_recognition in
    let st := setRecognitionRef (Some recognition) st in
    setRecognitionRef (Some (call CallStart recognition)) st.

(** [stopListening] is rebuilt by [useCallback] whenever [interimText]
    changes, and the closure captures that render's [interimText]. *)
Definition stopListening_closure (captured_interimText : string)
    (st : HookState) : HookState :=
  match recognitionRef st with
  | Some r =>
      let st := setRecognitionRef (Some (call CallStop r)) st in
      let st :=
        setConfirmedText (λ prev, prev +:+ captured_interimText) st in
      setInterimText "" st
  | None => st
  end.

(** The [stopListening] of the current render. *)
Definition stopListening (st : HookState) : HookState :=
  stopListening_closure (interimText st) st.

Definition resetTranscript (st : HookState) : HookState :=
  let st := setConfirmedText (λ _, "") st in
  let st := setInterimText "" st in
  let st :=
    match recognitionRef st with
    | Some r => setRecognitionRef (Some (call CallAbort r)) st
    | None => st
    end in
  setIsListening false st.

Definition setTranscript (text : string) (st : HookState) : HookState :=
  let st := setConfirmedText (λ _, text) st in
  setInterimText "" st.

(** ** Everything that can happen to the hook *)

Inductive Action :=
| Start (supported : bool)
| Stop
| Reset
| SetText (text : string)
| OnStart
| OnEnd
| OnError (errorType : string)
| OnResult (event : SpeechRecognitionEvent).

Definition step (st : HookState) (a : Action) : HookState :=
  match a with
  | Start supported => startListening supported st
  | Stop => stopListening st
  | Reset => resetTranscript st
  | SetText text => setTranscript text st
  | OnStart => onstart st
  | OnEnd => onend st
  | OnError errorType => onerror errorType st
  | OnResult event => onresult event st
  end.

Definition run (st : HookState) (actions : list Action) : HookState :=
  fold_left step actions st.

End Speech.

(* ===================================================================== *)
(** * Part II: the document store                                         *)
(* ===================================================================== *)

(** ** JSON values and the two built-ins the store calls *)

(** What [JSON.parse] returns. Numbers are the integers the store writes
    ([Date.now()] and the version tag), which a JavaScript number holds
    exactly; an object keeps its properties in order. *)
Inductive json :=
| JNull
| JBool (b : bool)
| JNum (n : Z)
| JStr (s : string)
| JArr (elements : list json)
| JObj (props : list (string * json)).

(** [JSON.parse] ([None] is a [SyntaxError]) and [JSON.stringify(value,
    null, space)] ([space] is [0] where the source omits it). *)
Class JSONBuiltins := {
  JSON_parse : string → option json;
  JSON_stringify : nat → json → string
}.

(** What the store relies on: text produced by [JSON.stringify] parses
    back to the same value, and the empty string is not JSON. *)
Class JSONLaws `{JSONBuiltins} : Prop := {
  parse_stringify : ∀ space v, JSON_parse (JSON_stringify space v) = Some v;
  parse_empty : JSON_parse "" = None
}.

(** Property access [v.k] on a parsed value: the outer [None] is the
    [TypeError] of reading a property of [null], the inner one is
    [undefined]. *)
Fixpoint lookup_prop (k : string) (props : list (string * json)) : option json :=
  match props with
  | [] => None
  | (k', v) :: props' => if String.eqb k' k then Some v else lookup_prop k props'
  end.

Definition get_prop (v : json) (k : string) : option (option json) :=
  match v with
  | JNull => None
  | JObj props => Some (lookup_prop k props)
  | _ => Some None
  end.

(** [Array.isArray(x)] and the truthiness of [x], for [x] a parsed value
    or [undefined]. *)
Definition isArray (x : option json) : bool :=
  match x with Some (JArr _) => true | _ => false end.

Definition truthy (x : option json) : bool :=
  match x with
  | None | Some JNull | Some (JBool false) => false
  | Some (JNum n) => negb (Z.eqb n 0)
  | Some (JStr s) => negb (String.eqb s "")
  | Some _ => true
  end.

(** ** Records of [src/types.ts] and their JSON form *)

Module Manuscript.
Record t := {
  id : string;
  title : string;
  createdAt : Z;
  updatedAt : Z
}.

Definition to_json (m : t) : json :=
  JObj [("id", JStr (id m)); ("title", JStr (title m));
        ("createdAt", JNum (createdAt m)); ("updatedAt", JNum (updatedAt m))].

(** The value seen at type [Manuscript]: an object with exactly the
    declared properties, in the order in which the application writes
    them. *)
Definition of_json (v : json) : option t :=
  match v with
  | JObj [(k1, JStr i); (k2, JStr ti); (k3, JNum c); (k4, JNum u)] =>
      if String.eqb k1 "id" && String.eqb k2 "title"
         && String.eqb k3 "createdAt" && String.eqb k4 "updatedAt"
      then Some {| id := i; title := ti; createdAt := c; updatedAt := u |}
      else None
  | _ => None
  end.

Definition set_updatedAt (u : Z) (m : t) : t :=
  {| id := id m; title := title m; createdAt := createdAt m; updatedAt := u |}.

Definition set_createdAt (c : Z) (m : t) : t :=
  {| id := id m; title := title m; createdAt := c; updatedAt := updatedAt m |}.
End Manuscript.

Module Document.
Record t := {
  id : string;
  manuscriptId : option string;
  title : string;
  rawText : string;
  polishedText : string;
  tags : list string;
  createdAt : Z;
  updatedAt : Z
}.

Definition tail_props (d : t) : list (string * json) :=
  [("title", JStr (title d)); ("rawText", JStr (rawText d));
   ("polishedText", JStr (polishedText d));
   ("tags", JArr (JStr <$> tags d));
   ("createdAt", JNum (createdAt d)); ("updatedAt", JNum (updatedAt d))].

(** An [undefined] property is not serialised. *)
Definition to_json (d : t) : json :=
  JObj (("id", JStr (id d)) ::
        match manuscriptId d with
        | Some m => ("manuscriptId", JStr m) :: tail_props d
        | None => tail_props d
        end).

Definition string_of_json (v : json) : option string :=
  match v with JStr s => Some s | _ => None end.

Definition of_tail (i : string) (m : option string)
    (props : list (string * json)) : option t :=
  match props with
  | [(k1, JStr ti); (k2, JStr r); (k3, JStr p); (k4, JArr tg);
     (k5, JNum c); (k6, JNum u)] =>
      if String.eqb k1 "title" && String.eqb k2 "rawText"
         && String.eqb k3 "polishedText" && String.eqb k4 "tags"
         && String.eqb k5 "createdAt" && String.eqb k6 "updatedAt"
      then
        match mapM string_of_json tg with
        | Some tg' =>
            Some {| id := i; manuscriptId := m; title := ti; rawText := r;
                    polishedText := p; tags := tg';
                    createdAt := c; updatedAt := u |}
        | None => None
        end
      else None
  | _ => None
  end.

(** The value seen at type [Document]: an object with exactly the
    declared properties, in the order in which the application writes
    them, [manuscriptId] being optional. *)
Definition of_json (v : json) : option t :=
  match v with
  | JObj ((k0, JStr i) :: (k1, JStr m) :: props) =>
      if String.eqb k0 "id"
      then if String.eqb k1 "manuscriptId"
           then of_tail i (Some m) props
           else of_tail i None ((k1, JStr m) :: props)
      else None
  | _ => None
  end.

Definition set_updatedAt (u : Z) (d : t) : t :=
  {| id := id d; manuscriptId := manuscriptId d; title := title d;
     rawText := rawText d; polishedText := polishedText d; tags := tags d;
     createdAt := createdAt d; updatedAt := u |}.

Definition set_createdAt (c : Z) (d : t) : t :=
  {| id := id d; manuscriptId := manuscriptId d; title := title d;
     rawText := rawText d; polishedText := polishedText d; tags := tags d;
     createdAt := c; updatedAt := updatedAt d |}.
End Document.

Module UserSettings.
Record t := {
  userName : string;
  hasCompletedOnboarding : bool
}.

Definition to_json (s : t) : json :=
  JObj [("userName", JStr (userName s));
        ("hasCompletedOnboarding", JBool (hasCompletedOnboarding s))].

Definition of_json (v : json) : option t :=
  match v with
  | JObj [(k1, JStr n); (k2, JBool b)] =>
      if String.eqb k1 "userName" && String.eqb k2 "hasCompletedOnboarding"
      then Some {| userName := n; hasCompletedOnboarding := b |}
      else None
  | _ => None
  end.

(** [UserSettings | null]. *)
Definition nullable_to_json (s : option t) : json :=
  match s with Some s => to_json s | None => JNull end.

Definition nullable_of_json (v : json) : option (option t) :=
  match v with
  | JNull => Some None
  | _ => Some <$> of_json v
  end.
End UserSettings.

(** A value seen at an array type [T[]]. *)
Definition array_of_json {A} (of_json : json → option A) (v : json)
  : option (list A) :=
  match v with
  | JArr l => mapM of_json l
  | _ => None
  end.

Definition array_to_json {A} (to_json : A → json) (l : list A) : json :=
  JArr (to_json <$> l).

(** ** The environment of the store: [localStorage] and the clock *)

(** [clock] gives the value of each successive call of [Date.now()],
    [reads] counts the calls made so far. *)
Record World := {
  localStorage : gmap string string;
  clock : nat → Z;
  reads : nat
}.

(** A call either returns a value and leaves a world, or meets a stored
    value that does not have the TypeScript type at which the source uses
    it; the embedding does not follow the source beyond that point. *)
Inductive Outcome (A : Type) :=
| Done (a : A) (w : World)
| IllTyped.
Arguments Done {A} a w.
Arguments IllTyped {A}.

Definition M (A : Type) : Type := World → Outcome A.

Definition ret {A} (a : A) : M A := λ w, Done a w.

Definition bind {A B} (m : M A) (k : A → M B) : M B :=
  λ w, match m w with
       | Done a w' => k a w'
       | IllTyped => IllTyped
       end.

Notation "'let!' x := m 'in' k" := (bind m (λ x, k))
  (at level 10, x pattern, m at level 100, k at level 200).

(** The use of a parsed value at a declared type. *)
Definition cast {A} (o : option A) : M A :=
  λ w, match o with Some a => Done a w | None => IllTyped end.

Definition getItem (key : string) : M (option string) :=
  λ w, Done (localStorage w !! key) w.

Definition setItem (key value : string) : M unit :=
  λ w, Done tt {| localStorage := <[key := value]> (localStorage w);
                  clock := clock w; reads := reads w |}.

Definition Date_now : M Z :=
  λ w, Done (clock w (reads w))
            {| localStorage := localStorage w; clock := clock w;
               reads := S (reads w) |}.

(** ** [src/storageService.ts] *)

Definition DOCS_KEY : string := "authors_voice_docs".
Definition MANUSCRIPTS_KEY : string := "authors_voice_manuscripts".
Definition USER_SETTINGS_KEY : string := "authors_voice_user_settings".

(** [findIndex]: the index of the first element satisfying [p], [-1]
    when there is none. *)
Fixpoint findIndex_from {A} (p : A → bool) (l : list A) (i : Z) : Z :=
  match l with
  | [] => (-1)%Z
  | x :: l' => if p x then i else findIndex_from p l' (i + 1)%Z
  end.

Definition findIndex {A} (p : A → bool) (l : list A) : Z :=
  findIndex_from p l 0%Z.

(** [list.sort(compare)]: the sort is stable and [compare] is a
    consistent comparator here, which fixes the result; it is computed by
    insertion. *)
Fixpoint sort_insert {A} (compare : A → A → Z) (x : A) (l : list A) : list A :=
  match l with
  | [] => [x]
  | y :: l' =>
      if (compare x y <=? 0)%Z then x :: y :: l'
      else y :: sort_insert compare x l'
  end.

Definition sort {A} (compare : A → A → Z) (l : list A) : list A :=
  foldr (sort_insert compare) [] l.

(** [strings.join("")]. *)
Definition join_empty (l : list string) : string :=
  foldr String.append "" l.

Definition newline : string := String "010"%char "".

Section Storage.
Context `{JSONBuiltins}.

(** [data ? JSON.parse(data) : dflt], inside [try], with [catch]
    returning [dflt]; a string is truthy when it is not empty. *)
Definition parse_or (dflt : json) (data : option string) : json :=
  match data with
  | Some s =>
      if negb (String.eqb s "")
      then match JSON_parse s with
           | Some v => v
           | None => dflt
           end
      else dflt
  | None => dflt
  end.

(** *** User settings *)

Definition getUserSettings : M json :=
  let! data := getItem USER_SETTINGS_KEY in
  ret (parse_or JNull data).

(** [getUserSettings()] at its declared type [UserSettings | null]. *)
Definition getUserSettings_typed : M (option UserSettings.t) :=
  let! settings := getUserSettings in
  cast (UserSettings.nullable_of_json settings).

Definition saveUserSettings (settings : UserSettings.t) : M unit :=
  setItem USER_SETTINGS_KEY (JSON_stringify 0 (UserSettings.to_json settings)).

(** *** Manuscripts *)

Definition getManuscripts : M json :=
  let! data := getItem MANUSCRIPTS_KEY in
  ret (parse_or (JArr []) data).

(** [getManuscripts()] at its declared type [Manuscript[]]. *)
Definition getManuscripts_typed : M (list Manuscript.t) :=
  let! list := getManuscripts in
  cast (array_of_json Manuscript.of_json list).

Definition saveManuscript (manuscript : Manuscript.t) : M Manuscript.t :=
  let! list := getManuscripts_typed in
  let index :=
    findIndex (λ m, String.eqb (Manuscript.id m) (Manuscript.id manuscript))
      list in
  let! now := Date_now in
  let updated := Manuscript.set_updatedAt now manuscript in
  if (0 <=? index)%Z then
    let list := <[Z.to_nat index := updated]> list in
    let! _ := setItem MANUSCRIPTS_KEY
                (JSON_stringify 0 (array_to_json Manuscript.to_json list)) in
    ret updated
  else
    let! now := Date_now in
    let updated := Manuscript.set_createdAt now updated in
    let list := list ++ [updated] in
    let! _ := setItem MANUSCRIPTS_KEY
                (JSON_stringify 0 (array_to_json Manuscript.to_json list)) in
    ret updated.

(** *** Documents *)

Definition getDocuments : M json :=
  let! data := getItem DOCS_KEY in
  ret (parse_or (JArr []) data).

(** [getDocuments()] at its declared type [Document[]]. *)
Definition getDocuments_typed : M (list Document.t) :=
  let! docs := getDocuments in
  cast (array_of_json Document.of_json docs).

Definition deleteManuscript (id : string) : M unit :=
  let! list := getManuscripts_typed in
  let newList := filter (λ m, Manuscript.id m ≠ id) list in
  let! _ := setItem MANUSCRIPTS_KEY
              (JSON_stringify 0 (array_to_json Manuscript.to_json newList)) in
  let! docs := getDocuments_typed in
  let newDocs := filter (λ doc, Document.manuscriptId doc ≠ Some id) docs in
  setItem DOCS_KEY (JSON_stringify 0 (array_to_json Document.to_json newDocs)).

(** [manuscriptId] is [string | undefined]. *)
Definition getDocumentsByManuscript (manuscriptId : option string)
  : M (list Document.t) :=
  let! docs := getDocuments_typed in
  ret (filter (λ doc, Document.manuscriptId doc = manuscriptId) docs).

Definition saveDocument (doc : Document.t) : M Document.t :=
  let! docs := getDocuments_typed in
  let index :=
    findIndex (λ d, String.eqb (Document.id d) (Document.id doc)) docs in
  let! now := Date_now in
  let updatedDoc := Document.set_updatedAt now doc in
  if (0 <=? index)%Z then
    let docs := <[Z.to_nat index := updatedDoc]> docs in
    let! _ := setItem DOCS_KEY
                (JSON_stringify 0 (array_to_json Document.to_json docs)) in
    ret updatedDoc
  else
    let! now := Date_now in
    let updatedDoc := Document.set_createdAt now updatedDoc in
    let docs := docs ++ [updatedDoc] in
    let! _ := setItem DOCS_KEY
                (JSON_stringify 0 (array_to_json Document.to_json docs)) in
    ret updatedDoc.

Definition deleteDocument (id : string) : M unit :=
  let! docs := getDocuments_typed in
  let newDocs := filter (λ d, Document.id d ≠ id) docs in
  setItem DOCS_KEY (JSON_stringify 0 (array_to_json Document.to_json newDocs)).

(** [Document | undefined]. *)
Definition getDocument (id : string) : M (option Document.t) :=
  let! docs := getDocuments_typed in
  ret (find (λ d, String.eqb (Document.id d) id) docs).

(** *** Backup and restore *)

(** An object literal of [interface BackupData]. *)
Definition BackupData (manuscripts documents userSettings : json)
    (version timestamp : Z) : json :=
  JObj [("manuscripts", manuscripts); ("documents", documents);
        ("userSettings", userSettings); ("version", JNum version);
        ("timestamp", JNum timestamp)].

Definition createBackup : M string :=
  let! manuscripts := getManuscripts in
  let! documents := getDocuments in
  let! userSettings := getUserSettings in
  let! timestamp := Date_now in
  let data := BackupData manuscripts documents userSettings 1 timestamp in
  ret (JSON_stringify 2 data).

(** The [try] block. [Array.isArray(data.manuscripts) &&
    Array.isArray(data.documents)] is the match on two arrays; a [None]
    from [get_prop] is the exception that the [catch] turns into
    [false], as is a [None] from [JSON_parse]. *)
Definition restoreBackup (jsonData : string) : M bool :=
  match JSON_parse jsonData with
  | None => ret false
  | Some data =>
      match get_prop data "manuscripts", get_prop data "documents" with
      | Some (Some (JArr ms)), Some (Some (JArr ds)) =>
          let! _ := setItem MANUSCRIPTS_KEY (JSON_stringify 0 (JArr ms)) in
          let! _ := setItem DOCS_KEY (JSON_stringify 0 (JArr ds)) in
          match get_prop data "userSettings" with
          | Some userSettings =>
              if truthy userSettings then
                match userSettings with
                | Some us =>
                    let! _ := setItem USER_SETTINGS_KEY (JSON_stringify 0 us) in
                    ret true
                | None => ret true
                end
              else ret true
          | None => ret false
          end
      | _, _ => ret false
      end
  end.

(** *** Compilation *)

(** [`--- ${chapter.title} ---\n\n${content}\n\n`] with [content] being
    [chapter.polishedText || chapter.rawText || ""]. *)
Definition chapter_block (chapter : Document.t) : string :=
  let content :=
    if negb (String.eqb (Document.polishedText chapter) "")
    then Document.polishedText chapter
    else if negb (String.eqb (Document.rawText chapter) "")
    then Document.rawText chapter
    else "" in
  "--- " +:+ Document.title chapter +:+ " ---" +:+ newline +:+ newline
    +:+ content +:+ newline +:+ newline.

Definition compileManuscript (manuscriptId : string) : M string :=
  let! manuscripts := getManuscripts_typed in
  match find (λ m, String.eqb (Manuscript.id m) manuscriptId) manuscripts with
  | None => ret ""
  | Some _ =>
      let! chapters := getDocumentsByManuscript (Some manuscriptId) in
      let chapters :=
        sort (λ a b, (Document.createdAt a - Document.createdAt b)%Z) chapters in
      ret (join_empty (chapter_block <$> chapters))
  end.

End Storage.

(* ===================================================================== *)
(** * Part III: an implementation of the two JSON built-ins               *)
(* ===================================================================== *)

(** A printer following the [JSON.stringify] algorithm of ECMAScript
    (compact when [space] is [0], one property or element per line
    otherwise) and a recursive-descent parser for the text it produces,
    on the values of [json]. Among control characters only the line feed
    is escaped. They give the store a concrete pair of built-ins to run
    with. *)
Module JSONText.

Definition dquote : ascii := "034"%char.
Definition backslash : ascii := "092"%char.
Definition linefeed : ascii := "010"%char.

(** *** Printing *)

Fixpoint escape (s : string) : string :=
  match s with
  | EmptyString => EmptyString
  | String c s' =>
      if Ascii.eqb c dquote || Ascii.eqb c backslash
      then String backslash (String c (escape s'))
      else if Ascii.eqb c linefeed
      then String backslash (String "n"%char (escape s'))
      else String c (escape s')
  end.

Definition quote (s : string) : string :=
  String dquote (escape s +:+ String dquote "").

Definition print_number (n : Z) : string :=
  NilZero.string_of_int (Z.to_int n).

Fixpoint spaces (n : nat) : string :=
  match n with
  | O => ""
  | S n' => String " "%char (spaces n')
  end.

(** The line break and indentation before an item at nesting [depth]:
    nothing when [space] is [0]. *)
Definition break (space depth : nat) : string :=
  match space with
  | O => ""
  | S _ => String linefeed (spaces (space * depth))
  end.

Definition colon (space : nat) : string :=
  match space with
  | O => ":"
  | S _ => ": "
  end.

Fixpoint print (space depth : nat) (v : json) : string :=
  match v with
  | JNull => "null"
  | JBool true => "true"
  | JBool false => "false"
  | JNum n => print_number n
  | JStr s => quote s
  | JArr [] => "[]"
  | JArr (x :: l) =>
      "[" +:+ break space (S depth) +:+ print space (S depth) x
      +:+ (fix rest (l : list json) : string :=
             match l with
             | [] => break space depth +:+ "]"
             | y :: l' =>
                 "," +:+ break space (S depth) +:+ print space (S depth) y
                 +:+ rest l'
             end) l
  | JObj [] => "{}"
  | JObj ((k, x) :: ps) =>
      "{" +:+ break space (S depth) +:+ quote k +:+ colon space
      +:+ print space (S depth) x
      +:+ (fix rest (ps : list (string * json)) : string :=
             match ps with
             | [] => break space depth +:+ "}"
             | (k', y) :: ps' =>
                 "," +:+ break space (S depth) +:+ quote k' +:+ colon space
                 +:+ print space (S depth) y +:+ rest ps'
             end) ps
  end.

Definition stringify (space : nat) (v : json) : string := print space 0 v.

(** *** Parsing *)

Definition is_ws (c : ascii) : bool :=
  Ascii.eqb c " "%char || Ascii.eqb c linefeed
  || Ascii.eqb c "013"%char || Ascii.eqb c "009"%char.

Fixpoint skip_ws (s : string) : string :=
  match s with
  | EmptyString => EmptyString
  | String c s' => if is_ws c then skip_ws s' else s
  end.

Definition is_digit (c : ascii) : bool :=
  let n := nat_of_ascii c in (48 <=? n)%nat && (n <=? 57)%nat.

Definition is_numchar (c : ascii) : bool :=
  Ascii.eqb c "-"%char || is_digit c.

(** The longest prefix of sign and digit characters, and what follows. *)
Fixpoint span_number (s : string) : string * string :=
  match s with
  | EmptyString => (EmptyString, EmptyString)
  | String c s' =>
      if is_numchar c
      then let '(tok, r) := span_number s' in (String c tok, r)
      else (EmptyString, s)
  end.

Definition parse_number (s : string) : option (Z * string) :=
  let '(tok, r) := span_number s in
  match NilZero.int_of_string tok with
  | Some d => Some (Z.of_int d, r)
  | None => None
  end.

(** The characters of a string literal after its opening quote. *)
Fixpoint parse_chars (s : string) : option (string * string) :=
  match s with
  | EmptyString => None
  | String c r =>
      if Ascii.eqb c dquote then Some (EmptyString, r)
      else if Ascii.eqb c backslash then
        match r with
        | String c' r' =>
            if Ascii.eqb c' dquote || Ascii.eqb c' backslash
            then match parse_chars r' with
                 | Some (t, r'') => Some (String c' t, r'')
                 | None => None
                 end
            else if Ascii.eqb c' "n"%char
            then match parse_chars r' with
                 | Some (t, r'') => Some (String linefeed t, r'')
                 | None => None
                 end
            else None
        | EmptyString => None
        end
      else match parse_chars r with
           | Some (t, r') => Some (String c t, r')
           | None => None
           end
  end.

(** [expect w s] is what follows the word [w] at the head of [s]. *)
Fixpoint expect (w s : string) : option string :=
  match w, s with
  | EmptyString, _ => Some s
  | String a w', String c s' => if Ascii.eqb a c then expect w' s' else None
  | String _ _, EmptyString => None
  end.

(** [parse_value] reads one value after optional white space;
    [parse_elements] and [parse_members] read what follows an opening
    bracket or brace once it is known not to be closed at once. [fuel]
    bounds the nesting and the number of items. *)
Fixpoint parse_value (fuel : nat) (s : string) {struct fuel}
  : option (json * string) :=
  match fuel with
  | O => None
  | S fuel' =>
      match skip_ws s with
      | EmptyString => None
      | String c r =>
          if Ascii.eqb c "n"%char then
            r' ← expect "ull" r; Some (JNull, r')
          else if Ascii.eqb c "t"%char then
            r' ← expect "rue" r; Some (JBool true, r')
          else if Ascii.eqb c "f"%char then
            r' ← expect "alse" r; Some (JBool false, r')
          else if Ascii.eqb c dquote then
            '(t, r') ← parse_chars r; Some (JStr t, r')
          else if Ascii.eqb c "["%char then
            match skip_ws r with
            | String c' r' =>
                if Ascii.eqb c' "]"%char then Some (JArr [], r')
                else '(l, r'') ← parse_elements fuel' r; Some (JArr l, r'')
            | EmptyString => None
            end
          else if Ascii.eqb c "{"%char then
            match skip_ws r with
            | String c' r' =>
                if Ascii.eqb c' "}"%char then Some (JObj [], r')
                else '(ps, r'') ← parse_members fuel' r; Some (JObj ps, r'')
            | EmptyString => None
            end
          else if is_numchar c then
            '(n, r') ← parse_number (String c r); Some (JNum n, r')
          else None
      end
  end
with parse_elements (fuel : nat) (s : string) {struct fuel}
  : option (list json * string) :=
  match fuel with
  | O => None
  | S fuel' =>
      '(v, r) ← parse_value fuel' s;
      match skip_ws r with
      | String c r' =>
          if Ascii.eqb c ","%char then
            '(l, r'') ← parse_elements fuel' r'; Some (v :: l, r'')
          else if Ascii.eqb c "]"%char then Some ([v], r')
          else None
      | EmptyString => None
      end
  end
with parse_members (fuel : nat) (s : string) {struct fuel}
  : option (list (string * json) * string) :=
  match fuel with
  | O => None
  | S fuel' =>
      match skip_ws s with
      | String c r =>
          if Ascii.eqb c dquote then
            '(k, r1) ← parse_chars r;
            match skip_ws r1 with
            | String c1 r2 =>
                if Ascii.eqb c1 ":"%char then
                  '(v, r3) ← parse_value fuel' r2;
                  match skip_ws r3 with
                  | String c3 r4 =>
                      if Ascii.eqb c3 ","%char then
                        '(ps, r5) ← parse_members fuel' r4;
                        Some ((k, v) :: ps, r5)
                      else if Ascii.eqb c3 "}"%char then Some ([(k, v)], r4)
                      else None
                  | EmptyString => None
                  end
                else None
            | EmptyString => None
            end
          else None
      | EmptyString => None
      end
  end.

(** The whole text must be one value, white space apart. *)
Definition parse (s : string) : option json :=
  match parse_value (S (String.length s)) s with
  | Some (v, r) =>
      match skip_ws r with
      | EmptyString => Some v
      | String _ _ => None
      end
  | None => None
  end.

(** The number of calls of the parser that reading a value takes. *)
Fixpoint weight (v : json) : nat :=
  match v with
  | JArr l => S (foldr (λ x n, S (weight x + n)) O l)
  | JObj ps => S (foldr (λ kv n, S (weight kv.2 + n)) O ps)
  | _ => 1
  end.

(** *** Vocabulary of the round trip *)

Fixpoint all_numchar (s : string) : Prop :=
  match s with
  | EmptyString => True
  | String c s' => is_numchar c = true ∧ all_numchar s'
  end.

(** What may follow a number: anything but a sign or a digit. *)
Definition ends_number (s : string) : Prop :=
  match s with
  | EmptyString => True
  | String c _ => is_numchar c = false
  end.

(** What the printer writes after the first element of an array, and
    after the first member of an object. *)
Fixpoint print_elements (space depth : nat) (l : list json) : string :=
  match l with
  | [] => break space depth +:+ "]"
  | y :: l' =>
      "," +:+ break space (S depth) +:+ print space (S depth) y
      +:+ print_elements space depth l'
  end.

Fixpoint print_members (space depth : nat) (ps : list (string * json))
  : string :=
  match ps with
  | [] => break space depth +:+ "}"
  | (k, y) :: ps' =>
      "," +:+ break space (S depth) +:+ quote k +:+ colon space
      +:+ print space (S depth) y +:+ print_members space depth ps'
  end.

(** The first character of a printed value: neither white space nor a
    closing bracket. *)
Definition starts_value (c : ascii) : Prop :=
  is_ws c = false ∧ Ascii.eqb c "]" = false ∧ Ascii.eqb c "}" = false.

(** [v], printed at any indentation and followed by any text that does
    not continue a number, is read back by a parser with enough fuel. *)
Definition reads_back (v : json) : Prop :=
  ∀ space depth fuel rest,
    (weight v ≤ fuel)%nat → ends_number rest →
    parse_value fuel (print space depth v +:+ rest) = Some (v, rest).

Definition elements_weight (l : list json) : nat :=
  foldr (λ x n, S (weight x + n)) O l.

Definition members_weight (ps : list (string * json)) : nat :=
  foldr (λ kv n, S (weight kv.2 + n)) O ps.

#[export] Instance builtins : JSONBuiltins :=
  {| JSON_parse := parse; JSON_stringify := stringify |}.

End JSONText.

(* ===================================================================== *)
(** * Part IV: the specification's vocabulary                             *)
(* ===================================================================== *)

Module SpeechSpec.
Import Speech.

(** The window of result slots an event carries: from the resumption
    point to the end of the result list. *)
Definition window (event : SpeechRecognitionEvent)
  : list SpeechRecognitionResult :=
  drop (resultIndex event) (results event).

Definition text (slot : SpeechRecognitionResult) : string :=
  transcript (item0 slot).

(** All final slots, each followed by a single space, concatenated. *)
Fixpoint final_segments (slots : list SpeechRecognitionResult) : string :=
  match slots with
  | [] => ""
  | slot :: slots' =>
      if isFinal slot then (text slot +:+ " ") +:+ final_segments slots'
      else final_segments slots'
  end.

(** All interim slots, concatenated. *)
Fixpoint interim_segments (slots : list SpeechRecognitionResult) : string :=
  match slots with
  | [] => ""
  | slot :: slots' =>
      if isFinal slot then interim_segments slots'
      else text slot +:+ interim_segments slots'
  end.

(** The text of the last interim slot, if there is one. *)
Fixpoint last_interim (slots : list SpeechRecognitionResult) : option string :=
  match slots with
  | [] => None
  | slot :: slots' =>
      match last_interim slots' with
      | Some t => Some t
      | None => if isFinal slot then None else Some (text slot)
      end
  end.

(** The final segments of a sequence of events, in order of arrival. *)
Fixpoint all_final_segments (events : list SpeechRecognitionEvent) : string :=
  match events with
  | [] => ""
  | event :: events' =>
      final_segments (window event) +:+ all_final_segments events'
  end.

(** [s] is [t] with something appended. *)
Definition extends (s t : string) : Prop := ∃ more, s = t +:+ more.

(** The actions that replace [confirmedText] instead of appending to it. *)
Definition replaces_text (a : Action) : bool :=
  match a with
  | Reset | SetText _ => true
  | _ => false
  end.

(** A session has been started when the hook holds a recognition
    object. *)
Definition session_started (st : HookState) : Prop :=
  is_Some (recognitionRef st).

(** The reading of the specification under which a [no-speech] error
    leaves a listening hook exactly as it was. *)
Definition no_speech_absorbed (st : HookState) : Prop :=
  onerror "no-speech" st = st.

(** The reading of the specification under which an event's last
    interim slot alone becomes [interimText]. *)
Definition last_interim_replaces (event : SpeechRecognitionEvent)
    (st : HookState) : Prop :=
  ∀ t, last_interim (window event) = Some t →
       interimText (onresult event st) = t.

(** The reading of the specification under which an action other than
    [reset()] and [setText()] clears neither buffer. *)
Definition buffers_kept (a : Action) (st : HookState) : Prop :=
  replaces_text a = false →
  (confirmedText st ≠ "" → confirmedText (step st a) ≠ "")
  ∧ (interimText st ≠ "" → interimText (step st a) ≠ "").

(** The state the specification promises after [reset()]. *)
Definition fully_cleared (st : HookState) : Prop :=
  confirmedText st = "" ∧ interimText st = "" ∧ isListening st = false
  ∧ error st = None.

Definition slot (final : bool) (t : string) : SpeechRecognitionResult :=
  {| isFinal := final; item0 := {| transcript := t |}; items := [] |}.

(** An event whose window holds two interim slots, as a browser sends
    them while an utterance is still being recognised. *)
Definition two_interim_event : SpeechRecognitionEvent :=
  {| results := [slot false "hello "; slot false "wor"]; resultIndex := 0 |}.

(** A hook that is listening, and the same hook after the user has been
    refused the microphone. *)
Definition listening_state : HookState :=
  onstart (startListening true initial).

Definition refused_state : HookState :=
  onerror "not-allowed" listening_state.

Definition dictating_state : HookState :=
  onresult two_interim_event listening_state.

(** The event that delivers the final result of the utterance, and an
    event whose window holds no slot at all. *)
Definition final_event : SpeechRecognitionEvent :=
  {| results := [slot true "hello world"]; resultIndex := 0 |}.

Definition empty_event : SpeechRecognitionEvent :=
  {| results := []; resultIndex := 0 |}.

(** The scenario of the specification: one interim event, then the
    final event for the same utterance, then a stop that the backend
    acknowledges. *)
Definition hello_world_session : list Action :=
  [Start true; OnStart;
   OnResult {| results := [slot false "hello wor"]; resultIndex := 0 |};
   OnResult {| results := [slot true "hello world"]; resultIndex := 0 |};
   Stop; OnEnd].

End SpeechSpec.

(** ** The store *)

(** The world after [localStorage.setItem(key, value)], and after one
    call of [Date.now()]. *)
Definition put (key value : string) (w : World) : World :=
  {| localStorage := <[key := value]> (localStorage w);
     clock := clock w; reads := reads w |}.

Definition tick (w : World) : World :=
  {| localStorage := localStorage w; clock := clock w; reads := S (reads w) |}.

(** Successive readings of the clock never decrease. *)
Definition monotone (clock : nat → Z) : Prop :=
  ∀ i j, (i ≤ j)%nat → (clock i ≤ clock j)%Z.

(** The text a chapter contributes to a compiled manuscript, as the
    specification words it: the polished text when it is not empty, the
    raw text otherwise. *)
Definition chapter_content (chapter : Document.t) : string :=
  if decide (Document.polishedText chapter = "")
  then Document.rawText chapter
  else Document.polishedText chapter.

(** The end of a line followed by an empty line. *)
Definition blank_line : string := "

".

(** The block of a chapter in a compiled manuscript: the title between
    dashes, an empty line, the content, an empty line. *)
Definition titled_block (chapter : Document.t) : string :=
  String.append "--- "
    (String.append (Document.title chapter)
       (String.append " ---"
          (String.append blank_line
             (String.append (chapter_content chapter) blank_line)))).

(** The texts of a list one after the other, nothing in between. *)
Definition concatenation (texts : list string) : string :=
  String.concat "" texts.

(** Some manuscript of the store has this id. *)
Definition manuscript_exists (ms : list Manuscript.t) (mid : string) : Prop :=
  ∃ m, m ∈ ms ∧ Manuscript.id m = mid.

(** The value of a property of a parsed value, if it has one. *)
Definition field (data : json) (k : string) : option json :=
  match get_prop data k with
  | Some x => x
  | None => None
  end.

(** The comparator [(a, b) => key(a) - key(b)] and the order it sorts
    into. *)
Definition compare_by {A} (key : A → Z) (a b : A) : Z := (key a - key b)%Z.

Definition le_by {A} (key : A → Z) (a b : A) : Prop := (key a ≤ key b)%Z.

(** [d => d.id === doc.id]. *)
Definition same_id (doc : Document.t) (d : Document.t) : bool :=
  String.eqb (Document.id d) (Document.id doc).

Section StoreSpec.
Context `{JSONBuiltins}.

(** The parsed value found under a key, as the getters compute it. *)
Definition stored (key : string) (dflt : json) (w : World) : json :=
  parse_or dflt (localStorage w !! key).

(** A blob that [restoreBackup] must reject: it is not JSON, or the
    parsed value has no [manuscripts] array, or no [documents] array. *)
Definition malformed_backup (blob : string) : Prop :=
  match JSON_parse blob with
  | None => True
  | Some data =>
      isArray (field data "manuscripts") = false
      ∨ isArray (field data "documents") = false
  end.

(** Two worlds that no getter of the store tells apart, and that agree
    on every other key of [localStorage]. *)
Definition store_equivalent (w w' : World) : Prop :=
  stored MANUSCRIPTS_KEY (JArr []) w' = stored MANUSCRIPTS_KEY (JArr []) w
  ∧ stored DOCS_KEY (JArr []) w' = stored DOCS_KEY (JArr []) w
  ∧ stored USER_SETTINGS_KEY JNull w' = stored USER_SETTINGS_KEY JNull w
  ∧ ∀ key, key ≠ MANUSCRIPTS_KEY → key ≠ DOCS_KEY →
           key ≠ USER_SETTINGS_KEY →
           localStorage w' !! key = localStorage w !! key.

(** The operations of the store, and the worlds they lead to from an
    empty [localStorage]. *)
Inductive Operation :=
| SaveUserSettings (settings : UserSettings.t)
| SaveManuscript (manuscript : Manuscript.t)
| DeleteManuscript (id : string)
| SaveDocument (doc : Document.t)
| DeleteDocument (id : string)
| CreateBackup
| RestoreBackup (jsonData : string)
| CompileManuscript (manuscriptId : string).

(** The world a call leaves, when the embedding follows it to its end. *)
Definition after {A} (o : Outcome A) : option World :=
  match o with Done _ w' => Some w' | IllTyped => None end.

Definition perform (op : Operation) (w : World) : option World :=
  match op with
  | SaveUserSettings settings => after (saveUserSettings settings w)
  | SaveManuscript manuscript => after (saveManuscript manuscript w)
  | DeleteManuscript id => after (deleteManuscript id w)
  | SaveDocument doc => after (saveDocument doc w)
  | DeleteDocument id => after (deleteDocument id w)
  | CreateBackup => after (createBackup w)
  | RestoreBackup jsonData => after (restoreBackup jsonData w)
  | CompileManuscript manuscriptId => after (compileManuscript manuscriptId w)
  end.

Inductive reachable : World → Prop :=
| reachable_fresh clock reads :
    reachable {| localStorage := ∅; clock := clock; reads := reads |}
| reachable_step w op w' :
    reachable w → perform op w = Some w' → reachable w'.

(** The two collections are read as arrays. *)
Definition arrays_stored (w : World) : Prop :=
  (∃ ms, stored MANUSCRIPTS_KEY (JArr []) w = JArr ms)
  ∧ (∃ ds, stored DOCS_KEY (JArr []) w = JArr ds).

(** [handleSaveDocument] of [src/App.tsx], the caller of [saveDocument]:
    it stamps both timestamps with [Date.now()] on every save and leaves
    [createdAt] of an existing document to the service. [docId] is
    [currentDocId || crypto.randomUUID()]. *)
Definition handleSaveDocument (docId : string)
    (currentManuscriptId : option string) (docTitle transcript
    polishedText : string) (docTags : list string) : M Document.t :=
  let! created := Date_now in
  let! updated := Date_now in
  let docToSave :=
    {| Document.id := docId;
       Document.manuscriptId := currentManuscriptId;
       Document.title :=
         if negb (String.eqb docTitle "") then docTitle
         else "Untitled Manuscript";
       Document.rawText := transcript;
       Document.polishedText := polishedText;
       Document.tags := docTags;
       Document.createdAt := created;
       Document.updatedAt := updated |} in
  saveDocument docToSave.

End StoreSpec.

(** ** A small library to run the store on *)

Module Library.
Import JSONText.

(** An empty [localStorage] and a clock that advances one second per
    reading. *)
Definition empty_world : World :=
  {| localStorage := ∅;
     clock := λ n, (1000 * Z.of_nat (S n))%Z;
     reads := 0 |}.

Definition manuscript (id title : string) : Manuscript.t :=
  {| Manuscript.id := id; Manuscript.title := title;
     Manuscript.createdAt := 10; Manuscript.updatedAt := 10 |}.

Definition document (id : string) (manuscriptId : option string)
    (title : string) (createdAt : Z) : Document.t :=
  {| Document.id := id; Document.manuscriptId := manuscriptId;
     Document.title := title; Document.rawText := "draft of " +:+ title;
     Document.polishedText := ""; Document.tags := ["fiction"];
     Document.createdAt := createdAt; Document.updatedAt := createdAt |}.

Definition novel : Manuscript.t := manuscript "m1" "Novel".
Definition memoir : Manuscript.t := manuscript "m2" "Memoir".

Definition chapterA : Document.t := document "a" (Some "m1") "A" 300.
Definition chapterB : Document.t := document "b" (Some "m1") "B" 100.
Definition chapterC : Document.t := document "c" (Some "m1") "C" 200.
Definition childhood : Document.t := document "d" (Some "m2") "Childhood" 150.
Definition note : Document.t := document "e" None "Shopping list" 250.

Definition author : UserSettings.t :=
  {| UserSettings.userName := "Ada";
     UserSettings.hasCompletedOnboarding := true |}.

Definition manuscripts : list Manuscript.t := [novel; memoir].

Definition documents : list Document.t :=
  [chapterA; chapterB; chapterC; childhood; note].

Definition library : World :=
  put DOCS_KEY (stringify 0 (array_to_json Document.to_json documents))
    (put MANUSCRIPTS_KEY
       (stringify 0 (array_to_json Manuscript.to_json manuscripts))
       (put USER_SETTINGS_KEY (stringify 0 (UserSettings.to_json author))
          empty_world)).

(** The library after the chapter of the memoir has been polished. *)
Definition polished_childhood : Document.t :=
  {| Document.id := "d"; Document.manuscriptId := Some "m2";
     Document.title := "Childhood";
     Document.rawText := "i was born in a small town";
     Document.polishedText := "I was born in a small town.";
     Document.tags := []; Document.createdAt := 150;
     Document.updatedAt := 400 |}.

Definition polished_documents : list Document.t :=
  [chapterA; chapterB; chapterC; polished_childhood; note].

Definition polished_library : World :=
  put DOCS_KEY
    (stringify 0 (array_to_json Document.to_json polished_documents))
    library.

(** A backup file from which the [documents] field was cut. *)
Definition truncated_backup : string :=
  stringify 2 (JObj [("manuscripts", JArr []); ("version", JNum 1)]).

(** The result of a call, and the world it leaves. *)
Definition result {A} (o : Outcome A) : option A :=
  match o with Done a _ => Some a | IllTyped => None end.

Definition world_after {A} (o : Outcome A) (w : World) : World :=
  match o with Done _ w' => w' | IllTyped => w end.

(** The author dictates a first chapter and saves it, then dictates
    some more and saves again, each time through [handleSaveDocument]. *)
Definition first_save : Outcome Document.t :=
  handleSaveDocument "doc-1" None "Prologue" "hello " "" [] empty_world.

Definition second_save : Outcome Document.t :=
  handleSaveDocument "doc-1" None "Prologue" "hello world " "" []
    (world_after first_save empty_world).

Definition read_back : Outcome (option Document.t) :=
  getDocument "doc-1" (world_after second_save empty_world).

(** The author writes two chapters of a novel, compiles it, revises the
    first chapter and compiles again. *)
Definition writing_session : M (string * string) :=
  let! _ := saveManuscript novel in
  let! _ := handleSaveDocument "c1" (Some "m1") "One" "first" "" [] in
  let! _ := handleSaveDocument "c2" (Some "m1") "Two" "second" "" [] in
  let! before := compileManuscript "m1" in
  let! _ := handleSaveDocument "c1" (Some "m1") "One" "first, revised" "" [] in
  let! after := compileManuscript "m1" in
  ret (before, after).

Definition block (title content : string) : string :=
  "--- " +:+ title +:+ " ---" +:+ newline +:+ newline
    +:+ content +:+ newline +:+ newline.

End Library.

(** ** Sequences of store operations *)

(** [m => m.id === manuscript.id]. *)
Definition same_manuscript (manuscript : Manuscript.t) (m : Manuscript.t)
  : bool :=
  String.eqb (Manuscript.id m) (Manuscript.id manuscript).

Section StoreRuns.
Context `{JSONBuiltins}.

(** The world after a sequence of operations, when the embedding
    follows every one of them to its end. *)
Fixpoint perform_all (ops : list Operation) (w : World) : option World :=
  match ops with
  | [] => Some w
  | op :: ops' =>
      match perform op w with
      | Some w' => perform_all ops' w'
      | None => None
      end
  end.

Definition is_restore (op : Operation) : bool :=
  match op with RestoreBackup _ => true | _ => false end.

(** The operations that use the records of a collection: they call
    [findIndex], [find] or [filter] on what a getter returns. The
    others, [saveUserSettings], [createBackup] and [restoreBackup], read
    and write whole entries. *)
Definition uses_records (op : Operation) : bool :=
  match op with
  | SaveUserSettings _ | CreateBackup | RestoreBackup _ => false
  | _ => true
  end.

(** Both collections have their declared types, and no two manuscripts
    and no two documents share an id. *)
Definition unique_ids (w : World) : Prop :=
  ∃ ms ds,
    getManuscripts_typed w = Done ms w
    ∧ getDocuments_typed w = Done ds w
    ∧ NoDup (Manuscript.id <$> ms)
    ∧ NoDup (Document.id <$> ds).

(** An entry of [localStorage] that a getter cannot use: it is absent,
    empty, or not JSON. *)
Definition unreadable (data : option string) : Prop :=
  match data with
  | None => True
  | Some s => s = "" ∨ JSON_parse s = None
  end.

End StoreRuns.

(** ** Traces of the hook *)

Module SpeechTraces.
Import Speech SpeechSpec.

(** A recognition object as [startListening] leaves it: configured for
    continuous dictation in US English, started once, and since then
    only stopped or aborted. *)
Definition started_once (r : SpeechRecognition) : Prop :=
  continuous r = true ∧ interimResults r = true ∧ lang r = "en-US"
  ∧ ∃ later, calls r = CallStart :: later ∧ CallStart ∉ later.

Definition recognition_started_once (st : HookState) : Prop :=
  match recognitionRef st with
  | Some r => started_once r
  | None => True
  end.

(** The actions that write to the error channel. *)
Definition writes_error (a : Action) : bool :=
  match a with
  | Start _ => true
  | OnError errorType => negb (String.eqb errorType "no-speech")
  | _ => false
  end.

(** What an action makes of [isListening], if it sets it. *)
Definition sets_listening (a : Action) : option bool :=
  match a with
  | OnStart => Some true
  | OnEnd | OnError _ | Reset => Some false
  | _ => None
  end.

End SpeechTraces.

(** ** [src/App.tsx]: the handlers between the hook and the store *)

Module App.
Import Speech.

(** [enum AppState] of [src/types.ts]. *)
Inductive AppState := IDLE | RECORDING | EDITING | LIBRARY.

#[export] Instance AppState_eq_dec : EqDecision AppState.
Proof. solve_decision. Defined.

(** The [useState] cells of [App] that the document handlers read or
    write, and the state of the speech hook the component uses;
    [currentDocId] is [string | null], [currentManuscriptId] is
    [string | undefined]. The cells of the onboarding dialog and of the
    logo are left out: no handler below touches them. *)
Record State := {
  view : AppState;
  currentDocId : option string;
  currentManuscriptId : option string;
  docTitle : string;
  docTags : list string;
  polishedText : string;
  speech : HookState
}.

Definition setView (v : AppState) (app : State) : State :=
  {| view := v; currentDocId := currentDocId app;
     currentManuscriptId := currentManuscriptId app;
     docTitle := docTitle app; docTags := docTags app;
     polishedText := polishedText app; speech := speech app |}.

Definition setCurrentDocId (id : option string) (app : State) : State :=
  {| view := view app; currentDocId := id;
     currentManuscriptId := currentManuscriptId app;
     docTitle := docTitle app; docTags := docTags app;
     polishedText := polishedText app; speech := speech app |}.

(** The hook's state after one of its functions has run. *)
Definition setSpeech (st : HookState) (app : State) : State :=
  {| view := view app; currentDocId := currentDocId app;
     currentManuscriptId := currentManuscriptId app;
     docTitle := docTitle app; docTags := docTags app;
     polishedText := polishedText app; speech := st |}.

(** Truthiness of a [string | null]. *)
Definition truthy_id (id : option string) : bool :=
  match id with
  | Some s => negb (String.eqb s "")
  | None => false
  end.

(** [view === AppState.RECORDING && isListening]. *)
Definition recording (app : State) : bool :=
  bool_decide (view app = RECORDING) && isListening (speech app).

(** There is something to save: [transcript || docTitle]. *)
Definition has_content (app : State) : Prop :=
  fullTranscript (speech app) ≠ "" ∨ docTitle app ≠ "".

(** The object literal [docToSave] of [handleSaveDocument], as it is
    built in world [w]; [uuid] is what [crypto.randomUUID()] returns if
    it is called. *)
Definition docToSave (uuid : string) (app : State) (w : World) : Document.t :=
  {| Document.id :=
       match currentDocId app with
       | Some id => if negb (String.eqb id "") then id else uuid
       | None => uuid
       end;
     Document.manuscriptId := currentManuscriptId app;
     Document.title :=
       if negb (String.eqb (docTitle app) "") then docTitle app
       else "Untitled Manuscript";
     Document.rawText := fullTranscript (speech app);
     Document.polishedText := polishedText app;
     Document.tags := docTags app;
     Document.createdAt := clock w (reads w);
     Document.updatedAt := clock w (S (reads w)) |}.

Section Handlers.
Context `{JSONBuiltins}.

(** [handleSaveDocument] on the cells of the current render. The object
    literal and the call of [saveDocument] are [handleSaveDocument]
    above, which is given the id [currentDocId || crypto.randomUUID()]. *)
Definition handleSaveDocument (uuid : string) (app : State) : M State :=
  let docId :=
    match currentDocId app with
    | Some id => if negb (String.eqb id "") then id else uuid
    | None => uuid
    end in
  let! savedDoc :=
    handleSaveDocument docId (currentManuscriptId app) (docTitle app)
      (fullTranscript (speech app)) (polishedText app) (docTags app) in
  if negb (truthy_id (currentDocId app))
  then ret (setCurrentDocId (Some (Document.id savedDoc)) app)
  else ret app.

Definition handleDeleteDocument (app : State) : M State :=
  match currentDocId app with
  | Some id =>
      if negb (String.eqb id "") then
        let! _ := deleteDocument id in
        ret (setView LIBRARY app)
      else ret app
  | None => ret app
  end.

Definition handleOpenDocument (doc : Document.t) (app : State) : State :=
  {| view := EDITING;
     currentDocId := Some (Document.id doc);
     currentManuscriptId := Document.manuscriptId doc;
     docTitle := Document.title doc;
     docTags := Document.tags doc;
     polishedText := Document.polishedText doc;
     speech := setTranscript (Document.rawText doc) (speech app) |}.

Definition handleNewDocument (manuscriptId : option string) (app : State)
  : State :=
  {| view := RECORDING;
     currentDocId := None;
     currentManuscriptId := manuscriptId;
     docTitle := "";
     docTags := [];
     polishedText := "";
     speech := resetTranscript (speech app) |}.

(** [handleNavClick]: [confirmed] is the answer to [confirm(...)] if the
    question is asked. The handler reads the cells of the current
    render throughout; the updates it queues ([stopListening]'s, then
    [setCurrentDocId], then [setView]) make the next state. *)
Definition handleNavClick (confirmed : bool) (uuid : string)
    (targetView : AppState) (app : State) : M State :=
  if recording app && negb confirmed then ret app
  else
    let stopped :=
      if recording app then stopListening (speech app) else speech app in
    let! saved :=
      if bool_decide (targetView = LIBRARY)
         && (negb (String.eqb (fullTranscript (speech app)) "")
             || negb (String.eqb (docTitle app) ""))
      then handleSaveDocument uuid app
      else ret app in
    ret (setView targetView (setSpeech stopped saved)).

End Handlers.
End App.

(** ** The library and the application at work *)

Module Studio.
Import Speech SpeechSpec Library JSONText.

(** Chapter B of the novel after a revision, a new chapter for the
    memoir, and the memoir under a new title. *)
Definition revised_B : Document.t := document "b" (Some "m1") "B, revised" 999.
Definition epilogue : Document.t := document "f" (Some "m2") "Epilogue" 0.
Definition retitled_memoir : Manuscript.t := manuscript "m2" "Memoirs".

(** A day of work that never restores a backup, and one that tries to
    restore whatever is at hand. *)
Definition working_day : list Operation :=
  [SaveManuscript novel; SaveDocument chapterA; SaveDocument chapterB;
   SaveDocument chapterA; SaveUserSettings author; CreateBackup;
   CompileManuscript "m1"; DeleteDocument "b"; SaveManuscript novel;
   DeleteManuscript "m1"].

Definition careless_day : list Operation :=
  [SaveUserSettings author; RestoreBackup "not a backup";
   RestoreBackup truncated_backup;
   RestoreBackup
     (stringify 2 (BackupData (JArr [JNum 1]) (JArr [JNull]) JNull 1 0));
   CreateBackup; RestoreBackup "[]"].

(** A [localStorage] whose documents entry was cut in the middle. *)
Definition damaged_world : World :=
  put DOCS_KEY "[{" (put MANUSCRIPTS_KEY "" empty_world).


(** The application while the author dictates a new chapter of the
    novel, and with chapter B open in the editor. *)
Definition dictating : App.State :=
  {| App.view := App.RECORDING;
     App.currentDocId := None;
     App.currentManuscriptId := Some "m1";
     App.docTitle := "D";
     App.docTags := [];
     App.polishedText := "";
     App.speech := dictating_state |}.

Definition editing_B : App.State := App.handleOpenDocument chapterB dictating.

(** What may happen to a hook that shows an error before it is started
    again. *)
Definition quiet_actions : list Action :=
  [Stop; OnResult two_interim_event; OnError "no-speech"; OnEnd;
   SetText "draft"; Reset].

End Studio.

(* ===================================================================== *)
(** * Part V: the speech hook, verified                                   *)
(* ===================================================================== *)

Lemma append_nil_r (s : string) : s +:+ "" = s.
Proof. induction s as [|c s IH]; simpl; [done | by rewrite IH]. Qed.

Lemma append_assoc (s t u : string) : (s +:+ t) +:+ u = s +:+ (t +:+ u).
Proof. induction s as [|c s IH]; simpl; [done | by rewrite IH]. Qed.

Lemma eqb_empty_true (s : string) : String.eqb s "" = true → s = "".
Proof. by intros ?%String.eqb_eq. Qed.

(** Case analysis on the first string comparison in the goal. *)
Ltac case_string_eqb E :=
  match goal with
  | |- context [String.eqb ?a ?b] => destruct (String.eqb a b) eqn:E
  end.

Module SpeechFacts.
Import Speech SpeechSpec.

(** *** The loop of [onresult] *)

Lemma onresult_loop_spec rs n : ∀ i acc,
  n = (length rs - i)%nat →
  onresult_loop rs i n acc
  = (acc.1 +:+ final_segments (drop i rs),
     acc.2 +:+ interim_segments (drop i rs)).
Proof.
  induction n as [|n IH]; intros i [f t] Hn; simpl.
  - rewrite drop_ge by lia. simpl. by rewrite !append_nil_r.
  - destruct (lookup_lt_is_Some_2 rs i) as [r Hr]; [lia|].
    rewrite Hr, (drop_S _ _ _ Hr). simpl.
    rewrite IH by lia. unfold text.
    destruct (isFinal r); simpl; by rewrite ?append_assoc.
Qed.

Lemma onresult_confirmedText event st :
  confirmedText (onresult event st)
  = confirmedText st +:+ final_segments (window event).
Proof.
  unfold onresult, window.
  rewrite (onresult_loop_spec (results event) _ (resultIndex event)
             ("", "") eq_refl). simpl.
  case_string_eqb E; simpl; [|done].
  apply eqb_empty_true in E. by rewrite E, append_nil_r.
Qed.

Lemma onresult_interimText event st :
  interimText (onresult event st) = interim_segments (window event).
Proof.
  unfold onresult, window.
  rewrite (onresult_loop_spec (results event) _ (resultIndex event)
             ("", "") eq_refl).
  done.
Qed.

Lemma onresult_frame event st :
  isListening (onresult event st) = isListening st
  ∧ error (onresult event st) = error st
  ∧ recognitionRef (onresult event st) = recognitionRef st.
Proof.
  unfold onresult.
  destruct (onresult_loop _ _ _ _) as [f t].
  by destruct (negb _).
Qed.

(** *** Sequences of [onresult] events *)

Lemma run_app st xs ys : run st (xs ++ ys) = run (run st xs) ys.
Proof. apply fold_left_app. Qed.

Lemma run_onresult_confirmedText events : ∀ st,
  confirmedText (run st (OnResult <$> events))
  = confirmedText st +:+ all_final_segments events.
Proof.
  induction events as [|e es IH]; intros st; simpl.
  - by rewrite append_nil_r.
  - unfold run in *. simpl. rewrite IH, onresult_confirmedText.
    by rewrite append_assoc.
Qed.

Lemma run_onresult_interimText events event st :
  interimText (run st (OnResult <$> (events ++ [event])))
  = interim_segments (window event).
Proof.
  rewrite fmap_app, run_app. simpl. apply onresult_interimText.
Qed.

Lemma all_final_segments_app es es' :
  all_final_segments (es ++ es')
  = all_final_segments es +:+ all_final_segments es'.
Proof.
  induction es as [|e es IH]; simpl; [done|].
  by rewrite IH, append_assoc.
Qed.

(** With at most one interim slot in the window, the interim slots
    concatenated are the last interim slot. *)
Lemma interim_segments_last slots :
  (length (filter (λ s, isFinal s = false) slots) ≤ 1)%nat →
  interim_segments slots = default "" (last_interim slots).
Proof.
  induction slots as [|s slots IH]; simpl; [done|].
  rewrite filter_cons. destruct (isFinal s) eqn:Hs.
  - rewrite decide_False by done. intros Hle.
    rewrite IH by done. by destruct (last_interim slots).
  - rewrite decide_True by done. simpl. intros Hle.
    assert (filter (λ s, isFinal s = false) slots = []) as Hnone
      by (apply nil_length_inv; lia).
    assert (∀ l : list SpeechRecognitionResult,
              filter (λ s, isFinal s = false) l = [] →
              interim_segments l = "" ∧ last_interim l = None) as Hfinal.
    { clear. induction l as [|x l IHl]; simpl; [done|].
      rewrite filter_cons. destruct (isFinal x) eqn:Hx.
      - rewrite decide_False by done. intros Hl.
        destruct (IHl Hl) as [-> ->]. done.
      - by rewrite decide_True. }
    destruct (Hfinal slots Hnone) as [-> ->]. by rewrite append_nil_r.
Qed.

(** *** Claims about [onresult] *)

(** C1, as the code has it. An [onresult] event appends to [confirmedText] the
    final slots of its window, each followed by one space, and replaces
    [interimText] by the concatenation of all the interim slots of the
    window. Hence, after any sequence of events, [confirmedText] is the
    initial text followed by the final segments of every window, each
    appended exactly once and in order of arrival; the visible transcript
    is that text followed by the interim slots of the latest event; and
    what has been confirmed stays a prefix of [confirmedText] whatever
    events follow. *)
Theorem C1_onresult_accumulates
    (st : HookState) (events later : list SpeechRecognitionEvent)
    (event : SpeechRecognitionEvent) :
  confirmedText (onresult event st)
  = confirmedText st +:+ final_segments (window event)
  ∧ interimText (onresult event st) = interim_segments (window event)
  ∧ confirmedText (run st (OnResult <$> events))
    = confirmedText st +:+ all_final_segments events
  ∧ fullTranscript (run st (OnResult <$> (events ++ [event])))
    = (confirmedText st +:+ all_final_segments (events ++ [event]))
      +:+ interim_segments (window event)
  ∧ extends (confirmedText (run st (OnResult <$> (events ++ later))))
            (confirmedText (run st (OnResult <$> events))).
Proof.
  split; [apply onresult_confirmedText|].
  split; [apply onresult_interimText|].
  split; [apply run_onresult_confirmedText|].
  split.
  - unfold fullTranscript.
    by rewrite run_onresult_interimText, run_onresult_confirmedText.
  - exists (all_final_segments later).
    rewrite !run_onresult_confirmedText, all_final_segments_app.
    by rewrite append_assoc.
Qed.

(** C1 as the specification words it fails: with two interim slots in
    the window, [interimText] is both of them, not the last one. *)
Lemma C1_last_interim_counterexample :
  ¬ last_interim_replaces two_interim_event initial.
Proof.
  intros Hclaim. specialize (Hclaim "wor" eq_refl).
  vm_compute in Hclaim. discriminate.
Qed.

(** *** Claims about [onerror] *)

Lemma onerror_frame errorType st :
  isListening (onerror errorType st) = false
  ∧ confirmedText (onerror errorType st) = confirmedText st
  ∧ interimText (onerror errorType st) = interimText st
  ∧ recognitionRef (onerror errorType st) = recognitionRef st.
Proof.
  unfold onerror.
  destruct (_ || _); [done|]. by destruct (negb _).
Qed.

(** C4, as the code has it. The codes [not-allowed] and [service-not-allowed]
    give the permission error, every other code except [no-speech] gives
    the generic error carrying the code, and [no-speech] leaves the error
    channel as it was; whatever the code, both text buffers and the
    recognition object are untouched and [isListening] becomes [false]. *)
Theorem C4_onerror_taxonomy (errorType : string) (st : HookState) :
  (errorType = "not-allowed" ∨ errorType = "service-not-allowed" →
     error (onerror errorType st) = Some permission_message)
  ∧ (errorType ≠ "not-allowed" ∧ errorType ≠ "service-not-allowed"
     ∧ errorType ≠ "no-speech" →
     error (onerror errorType st) = Some ("Error occurred: " +:+ errorType))
  ∧ (errorType = "no-speech" → error (onerror errorType st) = error st)
  ∧ isListening (onerror errorType st) = false
  ∧ confirmedText (onerror errorType st) = confirmedText st
  ∧ interimText (onerror errorType st) = interimText st
  ∧ recognitionRef (onerror errorType st) = recognitionRef st.
Proof.
  split; [|split; [|split]]; [| | |apply onerror_frame].
  - by intros [-> | ->].
  - intros (H1 & H2 & H3). unfold onerror.
    apply String.eqb_neq in H1, H2, H3. by rewrite H1, H2, H3.
  - by intros ->.
Qed.

(** C4 as the specification words it fails: a listening hook does not
    stay as it was on [no-speech], it stops listening. *)
Lemma C4_no_speech_counterexample :
  isListening listening_state = true ∧ ¬ no_speech_absorbed listening_state.
Proof. split; [done|]. intros Hclaim. vm_compute in Hclaim. discriminate. Qed.

(** *** Claims about the functions the hook returns *)

Lemma session_started_start st : session_started (startListening true st).
Proof. unfold session_started, startListening. simpl. by destruct (recognitionRef st). Qed.

Lemma session_started_step st a :
  session_started st → session_started (step st a).
Proof.
  unfold session_started. intros [r Hr].
  destruct a as [[]| | | | | |e|e]; simpl;
    unfold startListening, stopListening, stopListening_closure,
      resetTranscript, setTranscript, onstart, onend; simpl;
    rewrite ?Hr; simpl; eauto.
  - destruct (onerror_frame e st) as (_ & _ & _ & ->). eauto.
  - destruct (onresult_frame e st) as (_ & _ & ->). eauto.
Qed.

(** C8. Once a session has been started, [stopListening] appends the
    interim text of that moment to [confirmedText], empties
    [interimText], and leaves the visible transcript as it was. *)
Theorem C8_stop_folds_interim (st : HookState) :
  session_started st →
  confirmedText (stopListening st) = confirmedText st +:+ interimText st
  ∧ interimText (stopListening st) = ""
  ∧ fullTranscript (stopListening st) = fullTranscript st.
Proof.
  intros [r Hr]. unfold stopListening, stopListening_closure, fullTranscript.
  rewrite Hr. simpl. by rewrite append_nil_r.
Qed.

(** C8 on a hook that holds the interim text [hello wor]. *)
Lemma C8_stop_folds_interim_witness :
  session_started dictating_state
  ∧ confirmedText (stopListening dictating_state) = "hello wor"
  ∧ interimText (stopListening dictating_state) = ""
  ∧ fullTranscript (stopListening dictating_state)
    = fullTranscript dictating_state.
Proof.
  assert (Hs : session_started dictating_state) by (vm_compute; eauto).
  split; [exact Hs|].
  exact (C8_stop_folds_interim dictating_state Hs).
Defined.

(** A [stopListening] kept from an earlier render appends the interim
    text of that render, whatever the interim text is now. *)
Lemma stopListening_closure_captured captured st :
  session_started st →
  fullTranscript (stopListening_closure captured st)
  = confirmedText st +:+ captured.
Proof.
  intros [r Hr]. unfold stopListening_closure, fullTranscript.
  rewrite Hr. simpl. by rewrite append_nil_r.
Qed.

Example hello_world_transcript :
  fullTranscript (run initial hello_world_session) = "hello world "
  ∧ isListening (run initial hello_world_session) = false
  ∧ error (run initial hello_world_session) = None.
Proof. repeat split. Qed.

(** C9, as the code has it. [resetTranscript] empties both text buffers and
    sets [isListening] to [false], whatever the state before; it sends
    [abort] to the recognition object if there is one, and it leaves the
    error channel as it was. *)
Theorem C9_reset_clears_text (st : HookState) :
  confirmedText (resetTranscript st) = ""
  ∧ interimText (resetTranscript st) = ""
  ∧ isListening (resetTranscript st) = false
  ∧ error (resetTranscript st) = error st
  ∧ recognitionRef (resetTranscript st) = call CallAbort <$> recognitionRef st.
Proof.
  destruct st as [listening err [r|] confirmed interim];
    repeat split; reflexivity.
Qed.

(** C9 as the specification words it fails: an error shown before the
    reset is still there after it. *)
Lemma C9_reset_keeps_error_counterexample :
  ¬ fully_cleared (resetTranscript refused_state).
Proof. intros (_ & _ & _ & Herr). vm_compute in Herr. discriminate. Qed.

Lemma step_extends_confirmedText st a :
  replaces_text a = false →
  extends (confirmedText (step st a)) (confirmedText st).
Proof.
  destruct a as [supported| | |text| | |e|e]; simpl; try done; intros _.
  - exists "". rewrite append_nil_r. unfold startListening. simpl.
    destruct supported; simpl; [|done]. by destruct (recognitionRef st).
  - unfold stopListening, stopListening_closure.
    destruct (recognitionRef st); simpl.
    + by eexists.
    + exists "". by rewrite append_nil_r.
  - exists "". by rewrite append_nil_r.
  - exists "". by rewrite append_nil_r.
  - exists "". rewrite append_nil_r. apply onerror_frame.
  - eexists. apply onresult_confirmedText.
Qed.

Lemma extends_nonempty s t : extends s t → t ≠ "" → s ≠ "".
Proof. intros [more ->] Ht. by destruct t. Qed.

(** C10, as the code has it. [startListening] leaves [confirmedText]
    and [interimText] as they are, whether or not the browser supports
    recognition and whether or not a session was active. Of the other
    actions, only [resetTranscript] and [setTranscript] can clear
    [confirmedText]: every other action only appends to it, so it stays
    non-empty once it is. [interimText] is kept by [startListening] and
    by the [onstart], [onend] and [onerror] events, but it is emptied by
    [stopListening] once a session has been started (its text moves to
    [confirmedText]) and it is replaced by every [onresult] event with
    the interim slots of the event's window, hence emptied when the
    window has none. The visible transcript stays exactly as it was
    unless the action is an [onresult] event, after which it is the
    confirmed text, the final segments of the window and its interim
    slots. *)
Theorem C10_start_preserves_text
    (supported : bool) (st : HookState) (a : Action) :
  replaces_text a = false →
  confirmedText (startListening supported st) = confirmedText st
  ∧ interimText (startListening supported st) = interimText st
  ∧ fullTranscript (startListening supported st) = fullTranscript st
  ∧ extends (confirmedText (step st a)) (confirmedText st)
  ∧ ((∀ event, a ≠ OnResult event) →
     fullTranscript (step st a) = fullTranscript st)
  ∧ (confirmedText st ≠ "" → confirmedText (step st a) ≠ "")
  ∧ (a ≠ Stop → (∀ event, a ≠ OnResult event) →
     interimText (step st a) = interimText st)
  ∧ (a = Stop →
     match recognitionRef st with
     | Some _ =>
         interimText (step st a) = ""
         ∧ confirmedText (step st a) = confirmedText st +:+ interimText st
     | None => step st a = st
     end)
  ∧ (∀ event, a = OnResult event →
       interimText (step st a) = interim_segments (window event)
       ∧ confirmedText (step st a)
         = confirmedText st +:+ final_segments (window event)
       ∧ fullTranscript (step st a)
         = (confirmedText st +:+ final_segments (window event))
           +:+ interim_segments (window event)).
Proof.
  intros Ha.
  assert ((∀ event, a ≠ OnResult event) →
          fullTranscript (step st a) = fullTranscript st) as Hvisible.
  { intros Hevent. destruct a as [sup| | |text| | |e|e]; try done.
    - unfold fullTranscript, step, startListening. simpl.
      destruct sup; simpl; [|done]. by destruct (recognitionRef st).
    - unfold fullTranscript, step, stopListening, stopListening_closure.
      destruct (recognitionRef st); simpl; [|done]. by rewrite append_nil_r.
    - unfold fullTranscript, step.
      by destruct (onerror_frame e st) as (_ & -> & -> & _).
    - by destruct (Hevent e). }
  assert (confirmedText (startListening supported st) = confirmedText st
          ∧ interimText (startListening supported st) = interimText st)
    as [Hc Hi].
  { unfold startListening. simpl.
    destruct supported; simpl; [|done]. by destruct (recognitionRef st). }
  unfold fullTranscript at 1 2. rewrite Hc, Hi.
  pose proof (step_extends_confirmedText st a Ha) as Hextends.
  do 3 (split; [done|]). split; [exact Hextends|].
  split; [exact Hvisible|].
  split; [by apply extends_nonempty|].
  split.
  { intros Hstop Hevent. destruct a as [sup| | |text| | |e|e]; try done.
    - unfold step, startListening. simpl.
      destruct sup; simpl; [|done]. by destruct (recognitionRef st).
    - apply onerror_frame.
    - by destruct (Hevent e). }
  split.
  { intros ->. unfold step, stopListening, stopListening_closure.
    by destruct st as [listening err [r|] confirmed interim]. }
  intros event ->. unfold step, fullTranscript.
  rewrite onresult_interimText, onresult_confirmedText. done.
Qed.

(** C10 on a hook that has just been stopped: starting again keeps the
    transcript. *)
Lemma C10_start_preserves_text_witness :
  fullTranscript (stopListening dictating_state) = "hello wor"
  ∧ fullTranscript (startListening true (stopListening dictating_state))
    = "hello wor".
Proof.
  split; [reflexivity|].
  destruct (C10_start_preserves_text true (stopListening dictating_state)
              (Start true) eq_refl) as (_ & _ & -> & _).
  reflexivity.
Defined.

(** C10 as the specification words it fails for [interimText]: a hook
    that shows the interim words [hello wor] has an empty [interimText]
    after [stopListening], and after the result event that brings the
    final text; after an event whose window is empty the words are gone
    from the visible transcript too. *)
Lemma C10_interim_emptied_counterexample :
  interimText dictating_state = "hello wor"
  ∧ ¬ buffers_kept Stop dictating_state
  ∧ ¬ buffers_kept (OnResult final_event) dictating_state
  ∧ fullTranscript (step dictating_state (OnResult empty_event)) = "".
Proof.
  split; [reflexivity|].
  split; [|split; [|reflexivity]];
    intros Hclaim; destruct (Hclaim eq_refl) as [_ Hinterim];
    by apply Hinterim.
Qed.

End SpeechFacts.

(* ===================================================================== *)
(** * Part VI: the JSON implementation satisfies the laws                 *)
(* ===================================================================== *)

(** Induction on a JSON value with the hypotheses for the elements of an
    array and the property values of an object. *)
Section json_induction.
Variable P : json → Prop.
Hypothesis HNull : P JNull.
Hypothesis HBool : ∀ b, P (JBool b).
Hypothesis HNum : ∀ n, P (JNum n).
Hypothesis HStr : ∀ s, P (JStr s).
Hypothesis HArr : ∀ l, Forall P l → P (JArr l).
Hypothesis HObj : ∀ ps, Forall (λ kv, P kv.2) ps → P (JObj ps).

Fixpoint json_nested_ind (v : json) : P v :=
  match v with
  | JNull => HNull
  | JBool b => HBool b
  | JNum n => HNum n
  | JStr s => HStr s
  | JArr l =>
      HArr l ((fix go (l : list json) : Forall P l :=
                 match l with
                 | [] => @List.Forall_nil _ P
                 | x :: l' =>
                     @List.Forall_cons _ P x l' (json_nested_ind x) (go l')
                 end) l)
  | JObj ps =>
      HObj ps ((fix go (ps : list (string * json))
                  : Forall (λ kv, P kv.2) ps :=
                  match ps with
                  | [] => @List.Forall_nil _ (λ kv, P kv.2)
                  | kv :: ps' =>
                      @List.Forall_cons _ (λ kv, P kv.2) kv ps'
                        (json_nested_ind kv.2) (go ps')
                  end) ps)
  end.
End json_induction.

Lemma length_append (s t : string) :
  String.length (s +:+ t) = (String.length s + String.length t)%nat.
Proof. induction s as [|c s IH]; simpl; [done | by rewrite IH]. Qed.

Module JSONTextFacts.
Import JSONText.

(** *** White space *)

Lemma skip_ws_idemp s : skip_ws (skip_ws s) = skip_ws s.
Proof.
  induction s as [|c s IH]; simpl; [done|].
  destruct (is_ws c) eqn:E; [done|]. simpl. by rewrite E.
Qed.

Lemma skip_ws_spaces n s : skip_ws (spaces n +:+ s) = skip_ws s.
Proof. induction n as [|n IH]; simpl; done. Qed.

Lemma skip_ws_break space depth s :
  skip_ws (break space depth +:+ s) = skip_ws s.
Proof. destruct space; simpl; [done|]. apply skip_ws_spaces. Qed.

Lemma skip_ws_head c s : is_ws c = false → skip_ws (String c s) = String c s.
Proof. intros E. simpl. by rewrite E. Qed.

(** *** Numbers *)

Lemma span_number_app s rest :
  all_numchar s → ends_number rest → span_number (s +:+ rest) = (s, rest).
Proof.
  intros Hs Hrest. induction s as [|c s IH]; simpl.
  - destruct rest as [|c r]; simpl in *; [done | by rewrite Hrest].
  - destruct Hs as [Hc Hs]. by rewrite Hc, IH.
Qed.

Lemma all_numchar_uint d : all_numchar (NilEmpty.string_of_uint d).
Proof. induction d; simpl; auto. Qed.

Lemma all_numchar_print_number n : all_numchar (print_number n).
Proof.
  unfold print_number, NilZero.string_of_int, NilZero.string_of_uint.
  destruct (Z.to_int n) as [d|d]; [|split; [done|]];
    (destruct d; [done | apply all_numchar_uint ..]).
Qed.

Lemma print_number_head n :
  ∃ c r, print_number n = String c r ∧ is_numchar c = true.
Proof.
  pose proof (all_numchar_print_number n) as H.
  assert (print_number n ≠ "") as Hne.
  { unfold print_number, NilZero.string_of_int, NilZero.string_of_uint.
    destruct (Z.to_int n) as [d|d]; [|done]. by destruct d. }
  destruct (print_number n) as [|c r]; [done|].
  exists c, r. split; [done | apply H].
Qed.

Lemma int_of_print_number n :
  NilZero.int_of_string (print_number n) = Some (Z.to_int n).
Proof.
  unfold print_number. apply NilZero.isi.
  - destruct n as [|p|p]; simpl; [done | | done].
    intros [= Hp]. by apply (Unsigned.to_uint_nonnil p).
  - destruct n as [|p|p]; simpl; [done | done |].
    intros [= Hp]. by apply (Unsigned.to_uint_nonnil p).
Qed.

Lemma parse_number_print n rest :
  ends_number rest →
  parse_number (print_number n +:+ rest) = Some (n, rest).
Proof.
  intros Hrest. unfold parse_number.
  rewrite span_number_app by (done || apply all_numchar_print_number).
  by rewrite int_of_print_number, DecimalZ.of_to.
Qed.

(** *** String literals *)

Lemma parse_chars_escape s rest :
  parse_chars (escape s +:+ String dquote rest) = Some (s, rest).
Proof.
  induction s as [|c s IH]; simpl; [done|].
  destruct (Ascii.eqb c dquote) eqn:E1; simpl.
  { apply Ascii.eqb_eq in E1 as ->. simpl. by rewrite IH. }
  destruct (Ascii.eqb c backslash) eqn:E2; simpl.
  { apply Ascii.eqb_eq in E2 as ->. simpl. by rewrite IH. }
  destruct (Ascii.eqb c linefeed) eqn:E3; simpl.
  { apply Ascii.eqb_eq in E3 as ->. simpl. by rewrite IH. }
  by rewrite E1, E2, IH.
Qed.

Lemma parse_chars_quote s rest :
  ∃ r, quote s +:+ rest = String dquote r ∧ parse_chars r = Some (s, rest).
Proof.
  eexists. split; [reflexivity|].
  rewrite append_assoc. simpl. apply parse_chars_escape.
Qed.

(** *** Values *)

Lemma print_array space depth x l :
  print space depth (JArr (x :: l))
  = "[" +:+ break space (S depth) +:+ print space (S depth) x
    +:+ print_elements space depth l.
Proof.
  cbn [print]. do 3 f_equal.
  induction l as [|y l IH]; cbn [print_elements]; [done | by rewrite IH].
Qed.

Lemma print_object space depth k x ps :
  print space depth (JObj ((k, x) :: ps))
  = "{" +:+ break space (S depth) +:+ quote k +:+ colon space
    +:+ print space (S depth) x +:+ print_members space depth ps.
Proof.
  cbn [print]. do 5 f_equal.
  induction ps as [|[k' y] ps IH]; cbn [print_members]; [done | by rewrite IH].
Qed.

Lemma numchar_dispatch c :
  is_numchar c = true →
  starts_value c
  ∧ Ascii.eqb c "n" = false ∧ Ascii.eqb c "t" = false
  ∧ Ascii.eqb c "f" = false ∧ Ascii.eqb c dquote = false
  ∧ Ascii.eqb c "[" = false ∧ Ascii.eqb c "{" = false.
Proof.
  destruct c as [[] [] [] [] [] [] [] []]; vm_compute; intros H;
    try discriminate H; repeat split.
Qed.

Lemma print_head space depth v rest :
  ∃ c r, print space depth v +:+ rest = String c r ∧ starts_value c.
Proof.
  destruct v as [|[]|n|s|[|x l]|[|[k x] ps]];
    try (eexists _, _; split; [reflexivity | by vm_compute]).
  destruct (print_number_head n) as (c & r & Hn & Hc).
  exists c, (r +:+ rest). simpl. rewrite Hn. split; [done|].
  by apply numchar_dispatch.
Qed.

Lemma ends_number_print_elements space depth l rest :
  ends_number (print_elements space depth l +:+ rest).
Proof. destruct l; [destruct space|]; done. Qed.

Lemma ends_number_print_members space depth ps rest :
  ends_number (print_members space depth ps +:+ rest).
Proof. destruct ps as [|[k y] ps]; [destruct space|]; done. Qed.

Lemma parse_value_skip fuel s s' :
  skip_ws s = skip_ws s' → parse_value fuel s = parse_value fuel s'.
Proof. destruct fuel; simpl; [done|]. by intros ->. Qed.

Lemma parse_elements_skip fuel s s' :
  skip_ws s = skip_ws s' → parse_elements fuel s = parse_elements fuel s'.
Proof.
  destruct fuel; simpl; [done|]. intros E.
  by rewrite (parse_value_skip fuel s s' E).
Qed.

Lemma parse_members_skip fuel s s' :
  skip_ws s = skip_ws s' → parse_members fuel s = parse_members fuel s'.
Proof. destruct fuel; simpl; [done|]. by intros ->. Qed.

Lemma parse_elements_S fuel s :
  parse_elements (S fuel) s
  = match parse_value fuel s with
    | Some (v, r) =>
        match skip_ws r with
        | String c r' =>
            if Ascii.eqb c "," then
              match parse_elements fuel r' with
              | Some (l, r'') => Some (v :: l, r'')
              | None => None
              end
            else if Ascii.eqb c "]" then Some ([v], r')
            else None
        | EmptyString => None
        end
    | None => None
    end.
Proof. simpl. destruct (parse_value fuel s) as [[v r]|]; [|done]. simpl.
  destruct (skip_ws r) as [|c r']; [done|]. destruct (Ascii.eqb c ","); [|done].
  by destruct (parse_elements fuel r') as [[l r'']|]. Qed.

Lemma skip_ws_comma s : skip_ws ("," +:+ s) = String "," s.
Proof. done. Qed.

Lemma parse_elements_print l :
  Forall reads_back l → ∀ x, reads_back x →
  ∀ space depth fuel rest,
    (S (weight x + elements_weight l) ≤ fuel)%nat → ends_number rest →
    parse_elements fuel
      (print space (S depth) x +:+ print_elements space depth l +:+ rest)
    = Some (x :: l, rest).
Proof.
  induction 1 as [|y l Hy Hl IH]; intros x Hx space depth [|fuel] rest Hf Hr;
    try lia; rewrite parse_elements_S.
  - rewrite Hx; [|simpl in *; lia|apply ends_number_print_elements].
    cbn [print_elements]. rewrite append_assoc, skip_ws_break. done.
  - rewrite Hx; [|simpl in *; lia|apply ends_number_print_elements].
    cbn [print_elements]. rewrite !append_assoc, skip_ws_comma.
    simpl (Ascii.eqb _ _). cbn iota.
    rewrite (parse_elements_skip fuel _ _ (skip_ws_break _ _ _)).
    rewrite IH; [done|done|simpl in *; lia|done].
Qed.

Lemma parse_members_S fuel s :
  parse_members (S fuel) s
  = match skip_ws s with
    | String c r =>
        if Ascii.eqb c dquote then
          match parse_chars r with
          | Some (k, r1) =>
              match skip_ws r1 with
              | String c1 r2 =>
                  if Ascii.eqb c1 ":" then
                    match parse_value fuel r2 with
                    | Some (v, r3) =>
                        match skip_ws r3 with
                        | String c3 r4 =>
                            if Ascii.eqb c3 "," then
                              match parse_members fuel r4 with
                              | Some (ps, r5) => Some ((k, v) :: ps, r5)
                              | None => None
                              end
                            else if Ascii.eqb c3 "}" then Some ([(k, v)], r4)
                            else None
                        | EmptyString => None
                        end
                    | None => None
                    end
                  else None
              | EmptyString => None
              end
          | None => None
          end
        else None
    | EmptyString => None
    end.
Proof.
  simpl. destruct (skip_ws s) as [|c r]; [done|].
  destruct (Ascii.eqb c dquote); [|done].
  destruct (parse_chars r) as [[k r1]|]; [|done]. simpl.
  destruct (skip_ws r1) as [|c1 r2]; [done|].
  destruct (Ascii.eqb c1 ":"); [|done].
  destruct (parse_value fuel r2) as [[v r3]|]; [|done]. simpl.
  destruct (skip_ws r3) as [|c3 r4]; [done|].
  destruct (Ascii.eqb c3 ","); [|done].
  by destruct (parse_members fuel r4) as [[ps r5]|].
Qed.

Lemma skip_ws_colon space s :
  ∃ r, skip_ws (colon space +:+ s) = String ":" r ∧ skip_ws r = skip_ws s.
Proof. destruct space; eexists; (split; [reflexivity|done]). Qed.

Lemma parse_members_print ps :
  Forall (λ kv, reads_back kv.2) ps → ∀ k x, reads_back x →
  ∀ space depth fuel rest,
    (S (weight x + members_weight ps) ≤ fuel)%nat → ends_number rest →
    parse_members fuel
      (quote k +:+ colon space +:+ print space (S depth) x
       +:+ print_members space depth ps +:+ rest)
    = Some ((k, x) :: ps, rest).
Proof.
  induction 1 as [|[k' y] ps Hy Hps IH];
    intros k x Hx space depth [|fuel] rest Hf Hr;
    try lia; rewrite parse_members_S.
  - destruct (parse_chars_quote k (colon space +:+ print space (S depth) x
        +:+ print_members space depth [] +:+ rest)) as (r & -> & Hk).
    rewrite skip_ws_head by done. simpl (Ascii.eqb _ _). cbn iota.
    rewrite Hk.
    destruct (skip_ws_colon space (print space (S depth) x
        +:+ print_members space depth [] +:+ rest)) as (r2 & -> & Hr2).
    simpl (Ascii.eqb _ _). cbn iota.
    rewrite (parse_value_skip fuel _ _ Hr2).
    rewrite Hx; [|simpl in *; lia|apply ends_number_print_members].
    cbn [print_members]. by rewrite append_assoc, skip_ws_break.
  - destruct (parse_chars_quote k (colon space +:+ print space (S depth) x
        +:+ print_members space depth ((k', y) :: ps) +:+ rest))
      as (r & -> & Hk).
    rewrite skip_ws_head by done. simpl (Ascii.eqb _ _). cbn iota.
    rewrite Hk.
    destruct (skip_ws_colon space (print space (S depth) x
        +:+ print_members space depth ((k', y) :: ps) +:+ rest))
      as (r2 & -> & Hr2).
    simpl (Ascii.eqb _ _). cbn iota.
    rewrite (parse_value_skip fuel _ _ Hr2).
    rewrite Hx; [|simpl in *; lia|apply ends_number_print_members].
    cbn [print_members]. rewrite !append_assoc, skip_ws_comma.
    simpl (Ascii.eqb _ _). cbn iota.
    rewrite (parse_members_skip fuel _ _ (skip_ws_break _ _ _)).
    rewrite IH; [done|done|simpl in *; lia|done].
Qed.

Lemma parse_value_array fuel s c r :
  skip_ws s = String c r → Ascii.eqb c "]" = false →
  parse_value (S fuel) ("[" +:+ s)
  = match parse_elements fuel s with
    | Some (l, r') => Some (JArr l, r')
    | None => None
    end.
Proof.
  intros Hs Hc. simpl. rewrite Hs, Hc.
  by destruct (parse_elements fuel s) as [[l r']|].
Qed.

Lemma parse_value_object fuel s c r :
  skip_ws s = String c r → Ascii.eqb c "}" = false →
  parse_value (S fuel) ("{" +:+ s)
  = match parse_members fuel s with
    | Some (ps, r') => Some (JObj ps, r')
    | None => None
    end.
Proof.
  intros Hs Hc. simpl. rewrite Hs, Hc.
  by destruct (parse_members fuel s) as [[ps r']|].
Qed.

Lemma reads_back_all v : reads_back v.
Proof.
  induction v as [|b|n|s|l IH|ps IH] using json_nested_ind;
    intros space depth [|fuel] rest Hf Hr; simpl in Hf; try lia.
  - done.
  - by destruct b.
  - destruct (print_number_head n) as (c & r & Hn & Hc).
    pose proof (parse_number_print n rest Hr) as Hp.
    cbn [print]. rewrite Hn in *.
    destruct (numchar_dispatch c Hc)
      as ((Hws & _ & _) & E1 & E2 & E3 & E4 & E5 & E6).
    simpl. rewrite Hws, E1, E2, E3, E4, E5, E6, Hc. simpl in Hp.
    by rewrite Hp.
  - destruct (parse_chars_quote s rest) as (r & Hq & Hk).
    cbn [print]. rewrite Hq. simpl. by rewrite Hk.
  - destruct l as [|x l]; [done|].
    apply Forall_cons in IH as [Hx Hl].
    rewrite print_array, !append_assoc.
    destruct (print_head space (S depth) x
                (print_elements space depth l +:+ rest))
      as (c & r & Hhead & Hws & Hc & _).
    rewrite (parse_value_array fuel _ c r);
      [|by rewrite skip_ws_break, Hhead, skip_ws_head|done].
    rewrite (parse_elements_skip fuel _ _ (skip_ws_break _ _ _)).
    rewrite parse_elements_print;
      [done|done|done|unfold elements_weight; simpl in *; lia|done].
  - destruct ps as [|[k x] ps]; [done|].
    apply Forall_cons in IH as [Hx Hps].
    rewrite print_object, !append_assoc.
    destruct (parse_chars_quote k
                (colon space +:+ print space (S depth) x
                 +:+ print_members space depth ps +:+ rest))
      as (r & Hq & _).
    rewrite (parse_value_object fuel _ dquote r);
      [|by rewrite skip_ws_break, Hq|done].
    rewrite (parse_members_skip fuel _ _ (skip_ws_break _ _ _)).
    rewrite parse_members_print;
      [done|done|done|unfold members_weight; simpl in *; lia|done].
Qed.

Lemma elements_length l :
  Forall (λ v, ∀ space depth,
            (weight v ≤ String.length (print space depth v))%nat) l →
  ∀ space depth,
    (S (elements_weight l)
     ≤ String.length (print_elements space depth l))%nat.
Proof.
  induction 1 as [|y l Hy Hl IH]; intros space depth;
    cbn [print_elements]; rewrite ?length_append; simpl.
  - lia.
  - specialize (Hy space (S depth)). specialize (IH space depth).
    unfold elements_weight in *. lia.
Qed.

Lemma members_length ps :
  Forall (λ kv, ∀ space depth,
            (weight kv.2 ≤ String.length (print space depth kv.2))%nat) ps →
  ∀ space depth,
    (S (members_weight ps)
     ≤ String.length (print_members space depth ps))%nat.
Proof.
  induction 1 as [|[k y] ps Hy Hps IH]; intros space depth;
    cbn [print_members]; rewrite ?length_append; simpl.
  - lia.
  - specialize (Hy space (S depth)). specialize (IH space depth).
    unfold members_weight in *. simpl in *. lia.
Qed.

Lemma weight_le_length v : ∀ space depth,
  (weight v ≤ String.length (print space depth v))%nat.
Proof.
  induction v as [|b|n|s|l IH|ps IH] using json_nested_ind;
    intros space depth.
  - simpl. lia.
  - destruct b; simpl; lia.
  - destruct (print_number_head n) as (c & r & Hn & _).
    cbn [print weight]. rewrite Hn. simpl. lia.
  - simpl. lia.
  - destruct l as [|x l]; [simpl; lia|].
    apply Forall_cons in IH as [Hx Hl].
    rewrite print_array, !length_append.
    specialize (Hx space (S depth)).
    pose proof (elements_length l Hl space depth).
    unfold elements_weight in *. simpl. lia.
  - destruct ps as [|[k x] ps]; [simpl; lia|].
    apply Forall_cons in IH as [Hx Hps].
    rewrite print_object, !length_append.
    specialize (Hx space (S depth)).
    pose proof (members_length ps Hps space depth).
    unfold members_weight in *. simpl in *. lia.
Qed.

(** *** The laws *)

Lemma parse_stringify_text space v : parse (stringify space v) = Some v.
Proof.
  unfold parse, stringify.
  pose proof (reads_back_all v space 0%nat
                (S (String.length (print space 0 v))) "") as H.
  rewrite append_nil_r in H. rewrite H; [done| |done].
  pose proof (weight_le_length v space 0%nat). lia.
Qed.

Lemma parse_empty_text : parse "" = None.
Proof. reflexivity. Qed.

#[export] Instance laws : JSONLaws :=
  {| parse_stringify := parse_stringify_text; parse_empty := parse_empty_text |}.

End JSONTextFacts.

(* ===================================================================== *)
(** * Part VII: the document store, verified                              *)
(* ===================================================================== *)

(** *** Records and their JSON form *)

Lemma Manuscript_of_to_json m : Manuscript.of_json (Manuscript.to_json m) = Some m.
Proof. by destruct m. Qed.

Lemma mapM_string_of_json tags :
  mapM Document.string_of_json (JStr <$> tags) = Some tags.
Proof. by apply mapM_fmap_Some. Qed.

Lemma Document_of_to_json d : Document.of_json (Document.to_json d) = Some d.
Proof.
  destruct d as [i [m|] ti r p tg c u]; cbn -[mapM];
    by rewrite mapM_string_of_json.
Qed.

Lemma UserSettings_of_to_json s :
  UserSettings.of_json (UserSettings.to_json s) = Some s.
Proof. by destruct s. Qed.

Lemma array_of_to_json {A} (of_json : json → option A) (to_json : A → json) l :
  (∀ x, of_json (to_json x) = Some x) →
  array_of_json of_json (array_to_json to_json l) = Some l.
Proof. intros Hx. by apply mapM_fmap_Some. Qed.

(** *** [findIndex], [find] and assignment at the index found *)

Lemma findIndex_from_range {A} (p : A → bool) l : ∀ i,
  (0 ≤ i)%Z →
  findIndex_from p l i = (-1)%Z ∨ (i ≤ findIndex_from p l i)%Z.
Proof.
  induction l as [|x l IH]; intros i Hi; simpl; [by left|].
  destruct (p x); [right; lia|].
  destruct (IH (i + 1)%Z) as [->|]; [lia|by left|right; lia].
Qed.

Lemma findIndex_from_found {A} (p : A → bool) l : ∀ i,
  (0 ≤ i)%Z → (0 ≤ findIndex_from p l i)%Z →
  ∃ pre x post,
    l = pre ++ x :: post ∧ Forall (λ y, p y = false) pre ∧ p x = true
    ∧ findIndex_from p l i = (i + Z.of_nat (length pre))%Z.
Proof.
  induction l as [|x l IH]; intros i Hi Hfound; simpl in *; [lia|].
  destruct (p x) eqn:Hx.
  - exists [], x, l. repeat split; [constructor|done|simpl; lia].
  - destruct (IH (i + 1)%Z) as (pre & y & post & -> & Hpre & Hy & Hidx);
      [lia|done|].
    exists (x :: pre), y, post. repeat split; [by constructor|done|].
    rewrite Hidx. simpl length. lia.
Qed.

Lemma findIndex_from_absent {A} (p : A → bool) l : ∀ i,
  (0 ≤ i)%Z → ¬ (0 ≤ findIndex_from p l i)%Z →
  Forall (λ y, p y = false) l.
Proof.
  induction l as [|x l IH]; intros i Hi Habsent; simpl in *; [constructor|].
  destruct (p x) eqn:Hx; [lia|].
  constructor; [done|]. apply (IH (i + 1)%Z); [lia|done].
Qed.

Lemma find_app_absent {A} (p : A → bool) pre l :
  Forall (λ y, p y = false) pre → find p (pre ++ l) = find p l.
Proof. induction 1 as [|y pre Hy _ IH]; simpl; [done|]. by rewrite Hy. Qed.

Lemma find_absent {A} (p : A → bool) l :
  Forall (λ y, p y = false) l → find p l = None.
Proof. induction 1 as [|y pre Hy _ IH]; simpl; [done|]. by rewrite Hy. Qed.

Lemma insert_middle {A} (pre : list A) x y post :
  <[length pre := y]> (pre ++ x :: post) = pre ++ y :: post.
Proof. induction pre as [|z pre IH]; simpl; [done|]. by rewrite IH. Qed.

Lemma find_here {A} (p : A → bool) x l : p x = true → find p (x :: l) = Some x.
Proof. simpl. by intros ->. Qed.

(** *** Sorting *)

Section sort_by_key.
Context {A : Type} (key : A → Z).


Lemma sort_insert_perm x l : sort_insert (compare_by key) x l ≡ₚ x :: l.
Proof.
  induction l as [|y l IH]; simpl; [done|].
  destruct ((compare_by key) x y <=? 0)%Z; [done|].
  rewrite IH. apply Permutation_swap.
Qed.

Lemma sort_perm l : sort (compare_by key) l ≡ₚ l.
Proof.
  induction l as [|x l IH]; simpl; [done|].
  by rewrite sort_insert_perm, IH.
Qed.

Lemma sort_insert_sorted x l :
  StronglySorted (le_by key) l → StronglySorted (le_by key) (sort_insert (compare_by key) x l).
Proof.
  induction 1 as [|y l Hl IH Hy]; simpl.
  - repeat constructor.
  - destruct (Z.leb_spec ((compare_by key) x y) 0) as [Hxy|Hxy]; unfold compare_by in Hxy.
    + constructor; [by constructor|].
      constructor; [unfold le_by; lia|].
      eapply Forall_impl; [exact Hy|]. unfold le_by. intros z Hz. lia.
    + constructor; [done|].
      rewrite sort_insert_perm. constructor; [unfold le_by; lia|done].
Qed.

Lemma sort_sorted l : StronglySorted (le_by key) (sort (compare_by key) l).
Proof.
  induction l as [|x l IH]; simpl; [constructor|].
  by apply sort_insert_sorted.
Qed.

Lemma sort_insert_stable t x l :
  filter (λ a, key a = t) (sort_insert (compare_by key) x l)
  = filter (λ a, key a = t) (x :: l).
Proof.
  induction l as [|y l IH]; simpl; [done|].
  destruct (Z.leb_spec ((compare_by key) x y) 0) as [Hxy|Hxy]; unfold compare_by in Hxy;
    [done|].
  rewrite (filter_cons _ y), IH, !filter_cons.
  repeat case_decide; try done; lia.
Qed.

Lemma sort_stable t l :
  filter (λ a, key a = t) (sort (compare_by key) l) = filter (λ a, key a = t) l.
Proof.
  induction l as [|x l IH]; simpl; [done|].
  rewrite sort_insert_stable, !filter_cons. by rewrite IH.
Qed.

End sort_by_key.

(** *** Running the store *)

Lemma bind_Done {A B} (m : M A) (k : A → M B) w a w' :
  m w = Done a w' → bind m k w = k a w'.
Proof. unfold bind. by intros ->. Qed.

Section StoreFacts.
Context `{JSONLaws}.

Lemma stringify_nonempty space v : JSON_stringify space v ≠ "".
Proof.
  intros E. pose proof (parse_stringify space v) as Hp.
  rewrite E, parse_empty in Hp. discriminate.
Qed.

Lemma parse_or_stringify dflt space v :
  parse_or dflt (Some (JSON_stringify space v)) = v.
Proof.
  unfold parse_or.
  destruct (String.eqb_spec (JSON_stringify space v) "") as [E|_].
  - by apply stringify_nonempty in E.
  - simpl. by rewrite parse_stringify.
Qed.

Lemma stored_put_eq key dflt space v w :
  stored key dflt (put key (JSON_stringify space v) w) = v.
Proof.
  unfold stored, put. simpl. rewrite lookup_insert_eq.
  apply parse_or_stringify.
Qed.

Lemma stored_put_ne key key' dflt value w :
  key' ≠ key → stored key dflt (put key' value w) = stored key dflt w.
Proof. intros Hne. unfold stored, put. simpl. by rewrite lookup_insert_ne. Qed.

Lemma stored_tick key dflt w : stored key dflt (tick w) = stored key dflt w.
Proof. done. Qed.

Lemma getManuscripts_typed_run w :
  getManuscripts_typed w
  = match array_of_json Manuscript.of_json (stored MANUSCRIPTS_KEY (JArr []) w) with
    | Some l => Done l w
    | None => IllTyped
    end.
Proof. done. Qed.

Lemma getDocuments_typed_run w :
  getDocuments_typed w
  = match array_of_json Document.of_json (stored DOCS_KEY (JArr []) w) with
    | Some l => Done l w
    | None => IllTyped
    end.
Proof. done. Qed.

Lemma getDocuments_typed_put docs w :
  getDocuments_typed
    (put DOCS_KEY (JSON_stringify 0 (array_to_json Document.to_json docs)) w)
  = Done docs
      (put DOCS_KEY (JSON_stringify 0 (array_to_json Document.to_json docs)) w).
Proof.
  rewrite getDocuments_typed_run, stored_put_eq.
  by rewrite (array_of_to_json _ _ _ Document_of_to_json).
Qed.

Lemma getManuscripts_typed_put ms w :
  getManuscripts_typed
    (put MANUSCRIPTS_KEY
       (JSON_stringify 0 (array_to_json Manuscript.to_json ms)) w)
  = Done ms
      (put MANUSCRIPTS_KEY
         (JSON_stringify 0 (array_to_json Manuscript.to_json ms)) w).
Proof.
  rewrite getManuscripts_typed_run, stored_put_eq.
  by rewrite (array_of_to_json _ _ _ Manuscript_of_to_json).
Qed.

(** A typed read depends on the stored value only. *)
Lemma getDocuments_typed_stored w w' docs :
  stored DOCS_KEY (JArr []) w' = stored DOCS_KEY (JArr []) w →
  getDocuments_typed w = Done docs w →
  getDocuments_typed w' = Done docs w'.
Proof.
  rewrite !getDocuments_typed_run. intros ->.
  destruct (array_of_json _ _); [|done]. by intros [= ->].
Qed.

Lemma getManuscripts_typed_stored w w' ms :
  stored MANUSCRIPTS_KEY (JArr []) w' = stored MANUSCRIPTS_KEY (JArr []) w →
  getManuscripts_typed w = Done ms w →
  getManuscripts_typed w' = Done ms w'.
Proof.
  rewrite !getManuscripts_typed_run. intros ->.
  destruct (array_of_json _ _); [|done]. by intros [= ->].
Qed.

(** *** [saveDocument] and [getDocument] *)

Lemma saveDocument_run doc docs w :
  getDocuments_typed w = Done docs w →
  saveDocument doc w
  = let index := findIndex (same_id doc) docs in
    let now := clock w (reads w) in
    let updatedDoc := Document.set_updatedAt now doc in
    if (0 <=? index)%Z then
      Done updatedDoc
        (put DOCS_KEY
           (JSON_stringify 0
              (array_to_json Document.to_json
                 (<[Z.to_nat index := updatedDoc]> docs)))
           (tick w))
    else
      let updatedDoc :=
        Document.set_createdAt (clock w (S (reads w))) updatedDoc in
      Done updatedDoc
        (put DOCS_KEY
           (JSON_stringify 0
              (array_to_json Document.to_json (docs ++ [updatedDoc])))
           (tick (tick w))).
Proof.
  intros Hget. unfold saveDocument.
  rewrite (bind_Done _ _ _ _ _ Hget). cbv zeta.
  fold (same_id doc). unfold bind at 1. unfold Date_now at 1.
  fold (tick w).
  by destruct (0 <=? findIndex (same_id doc) docs)%Z.
Qed.

(** What [saveDocument] stores is what [getDocument] finds: every field
    the caller passed except the timestamps, [updatedAt] read from the
    clock, and [createdAt] read from the clock when the id is new but
    taken from the caller when the id is already stored. *)
Lemma saveDocument_getDocument doc docs w :
  getDocuments_typed w = Done docs w →
  ∃ saved w',
    saveDocument doc w = Done saved w'
    ∧ getDocument (Document.id doc) w' = Done (Some saved) w'
    ∧ Document.id saved = Document.id doc
    ∧ Document.title saved = Document.title doc
    ∧ Document.rawText saved = Document.rawText doc
    ∧ Document.polishedText saved = Document.polishedText doc
    ∧ Document.tags saved = Document.tags doc
    ∧ Document.manuscriptId saved = Document.manuscriptId doc
    ∧ Document.updatedAt saved = clock w (reads w)
    ∧ Document.createdAt saved
      = match find (same_id doc) docs with
        | Some _ => Document.createdAt doc
        | None => clock w (S (reads w))
        end.
Proof.
  intros Hget. rewrite (saveDocument_run doc docs w Hget). cbv zeta.
  assert (same_id doc (Document.set_updatedAt (clock w (reads w)) doc) = true)
    as Hsame by apply String.eqb_refl.
  destruct (Z.leb_spec 0 (findIndex (same_id doc) docs)) as [Hfound|Habsent].
  - destruct (findIndex_from_found (same_id doc) docs 0%Z)
      as (pre & x & post & -> & Hpre & Hx & Hidx); [done|done|].
    unfold findIndex. rewrite Hidx, Z.add_0_l, Nat2Z.id, insert_middle.
    eexists _, _. split; [done|].
    split.
    { unfold getDocument.
      rewrite (bind_Done _ _ _ _ _ (getDocuments_typed_put _ _)).
      unfold ret. f_equal.
      change (λ d, String.eqb (Document.id d) (Document.id doc))
        with (same_id doc).
      rewrite (find_app_absent _ _ _ Hpre). by apply find_here. }
    repeat split.
    rewrite (find_app_absent _ _ _ Hpre). by rewrite (find_here _ x post Hx).
  - pose proof (findIndex_from_absent (same_id doc) docs 0%Z) as Hnone.
    specialize (Hnone ltac:(done) ltac:(unfold findIndex in Habsent; lia)).
    eexists _, _. split; [done|].
    split.
    { unfold getDocument.
      rewrite (bind_Done _ _ _ _ _ (getDocuments_typed_put _ _)).
      unfold ret. f_equal.
      change (λ d, String.eqb (Document.id d) (Document.id doc))
        with (same_id doc).
      rewrite (find_app_absent _ _ _ Hnone). by apply find_here. }
    repeat split.
    by rewrite (find_absent _ _ Hnone).
Qed.

(** Under a clock that never goes back, a document stamped at an earlier
    reading is stored with an [updatedAt] that is not smaller. *)
Lemma saveDocument_updatedAt doc docs w i :
  getDocuments_typed w = Done docs w →
  monotone (clock w) → (i ≤ reads w)%nat →
  Document.updatedAt doc = clock w i →
  ∃ saved w',
    saveDocument doc w = Done saved w'
    ∧ (Document.updatedAt doc ≤ Document.updatedAt saved)%Z.
Proof.
  intros Hget Hclock Hi Hdoc.
  destruct (saveDocument_getDocument doc docs w Hget)
    as (saved & w' & Hsave & _ & _ & _ & _ & _ & _ & _ & Hupdated & _).
  exists saved, w'. split; [done|].
  rewrite Hupdated, Hdoc. by apply Hclock.
Qed.

(** *** User settings *)

Lemma saveUserSettings_getUserSettings settings w :
  ∃ w', saveUserSettings settings w = Done tt w'
        ∧ getUserSettings_typed w' = Done (Some settings) w'.
Proof.
  eexists. split; [reflexivity|].
  unfold getUserSettings_typed, getUserSettings, bind, getItem, ret, cast.
  simpl. rewrite lookup_insert_eq, parse_or_stringify.
  by destruct settings.
Qed.

(** *** [deleteManuscript] *)

Lemma deleteManuscript_run mid ms ds w :
  getManuscripts_typed w = Done ms w →
  getDocuments_typed w = Done ds w →
  deleteManuscript mid w
  = Done tt
      (put DOCS_KEY
         (JSON_stringify 0
            (array_to_json Document.to_json
               (filter (λ d, Document.manuscriptId d ≠ Some mid) ds)))
         (put MANUSCRIPTS_KEY
            (JSON_stringify 0
               (array_to_json Manuscript.to_json
                  (filter (λ m, Manuscript.id m ≠ mid) ms)))
            w)).
Proof.
  intros Hms Hds. unfold deleteManuscript.
  rewrite (bind_Done _ _ _ _ _ Hms). cbv zeta.
  rewrite (bind_Done (setItem _ _) _ w tt (put _ _ w) eq_refl).
  erewrite (bind_Done getDocuments_typed);
    [done | eapply getDocuments_typed_stored; [|exact Hds]].
  by apply stored_put_ne.
Qed.

End StoreFacts.

(** *** The claims about the store *)

Section StoreClaims.
Context `{JSONLaws}.

(** C3. With the store holding manuscripts [ms] and documents [ds],
    [deleteManuscript mid] leaves exactly the manuscripts whose id is not
    [mid] and exactly the documents whose [manuscriptId] is not [mid]: a
    document of another manuscript, or of none, is still there, the same
    record in the same relative order; the user settings are untouched. *)
Theorem C3_deleteManuscript_cascade
    (mid : string) (ms : list Manuscript.t) (ds : list Document.t)
    (w : World) :
  getManuscripts_typed w = Done ms w →
  getDocuments_typed w = Done ds w →
  ∃ w' ms' ds',
    deleteManuscript mid w = Done tt w'
    ∧ getManuscripts_typed w' = Done ms' w'
    ∧ getDocuments_typed w' = Done ds' w'
    ∧ (∀ m, m ∈ ms' ↔ m ∈ ms ∧ Manuscript.id m ≠ mid)
    ∧ (∀ d, d ∈ ds' ↔ d ∈ ds ∧ Document.manuscriptId d ≠ Some mid)
    ∧ ms' = filter (λ m, Manuscript.id m ≠ mid) ms
    ∧ ds' = filter (λ d, Document.manuscriptId d ≠ Some mid) ds
    ∧ stored USER_SETTINGS_KEY JNull w' = stored USER_SETTINGS_KEY JNull w.
Proof.
  intros Hms Hds.
  eexists _, (filter (λ m, Manuscript.id m ≠ mid) ms),
    (filter (λ d, Document.manuscriptId d ≠ Some mid) ds).
  split; [by apply deleteManuscript_run|].
  split.
  { eapply getManuscripts_typed_stored; [|apply getManuscripts_typed_put].
    by rewrite stored_put_ne. }
  split; [apply getDocuments_typed_put|].
  split; [intros m; rewrite list_elem_of_filter; tauto|].
  split; [intros d; rewrite list_elem_of_filter; tauto|].
  split; [done|]. split; [done|].
  by rewrite !stored_put_ne.
Qed.

(** *** What every reachable store satisfies *)

Lemma perform_arrays_stored op w w' :
  arrays_stored w → perform op w = Some w' → arrays_stored w'.
Proof.
  intros [[ms0 Hm] [ds0 Hd]].
  assert (∀ w1,
    localStorage w1 !! MANUSCRIPTS_KEY = localStorage w !! MANUSCRIPTS_KEY →
    localStorage w1 !! DOCS_KEY = localStorage w !! DOCS_KEY →
    arrays_stored w1) as Hsame.
  { intros w1 E1 E2. unfold arrays_stored, stored in *. rewrite E1, E2. eauto. }
  assert (∀ space l w1,
    arrays_stored w1 →
    arrays_stored (put MANUSCRIPTS_KEY (JSON_stringify space (JArr l)) w1))
    as Hputm.
  { intros space l w1 [_ [ds1 Hd1]]. split.
    - rewrite stored_put_eq. eauto.
    - rewrite stored_put_ne by done. eauto. }
  assert (∀ space l w1,
    arrays_stored w1 →
    arrays_stored (put DOCS_KEY (JSON_stringify space (JArr l)) w1))
    as Hputd.
  { intros space l w1 [[ms1 Hm1] _]. split.
    - rewrite stored_put_ne by done. eauto.
    - rewrite stored_put_eq. eauto. }
  assert (∀ value w1,
    arrays_stored w1 → arrays_stored (put USER_SETTINGS_KEY value w1))
    as Hputs.
  { intros value w1 [Hm1 Hd1]. split; by rewrite stored_put_ne. }
  assert (arrays_stored w) as Hw by (split; eauto).
  assert (arrays_stored (tick w)) as Hw1 by (by apply Hsame).
  assert (arrays_stored (tick (tick w))) as Hw2 by (by apply Hsame).
  destruct op; simpl.
  - intros [= <-]. by apply (Hputs _ w).
  - unfold saveManuscript, bind. rewrite getManuscripts_typed_run.
    destruct (array_of_json _ _) as [ms|]; [|done]. simpl.
    destruct (0 <=? _)%Z; simpl; intros [= <-].
    + by apply (Hputm 0%nat _ (tick w)).
    + by apply (Hputm 0%nat _ (tick (tick w))).
  - unfold deleteManuscript, bind. rewrite getManuscripts_typed_run.
    destruct (array_of_json _ _) as [ms|]; [|done]. simpl.
    rewrite getDocuments_typed_run.
    destruct (array_of_json _ _) as [ds|]; [|done]. simpl. intros [= <-].
    apply (Hputd 0%nat _ (put MANUSCRIPTS_KEY _ w)).
    by apply (Hputm 0%nat).
  - unfold saveDocument, bind. rewrite getDocuments_typed_run.
    destruct (array_of_json _ _) as [ds|]; [|done]. simpl.
    destruct (0 <=? _)%Z; simpl; intros [= <-].
    + by apply (Hputd 0%nat _ (tick w)).
    + by apply (Hputd 0%nat _ (tick (tick w))).
  - unfold deleteDocument, bind. rewrite getDocuments_typed_run.
    destruct (array_of_json _ _) as [ds|]; [|done]. simpl. intros [= <-].
    by apply (Hputd 0%nat).
  - by intros [= <-].
  - unfold restoreBackup.
    destruct (JSON_parse jsonData) as [data|]; [|by intros [= <-]].
    destruct (get_prop data "manuscripts") as [[[| | | |ms|]|]|];
      try (by intros [= <-]).
    destruct (get_prop data "documents") as [[[| | | |ds|]|]|];
      try (by intros [= <-]).
    assert (arrays_stored
              (put DOCS_KEY (JSON_stringify 0 (JArr ds))
                 (put MANUSCRIPTS_KEY (JSON_stringify 0 (JArr ms)) w)))
      as Hnew by (apply Hputd; by apply Hputm).
    unfold bind. simpl.
    destruct (get_prop data "userSettings") as [us|]; simpl;
      [destruct (truthy us); [destruct us|]|]; simpl; intros [= <-];
      try exact Hnew.
    by apply (Hputs _ (put DOCS_KEY _ (put MANUSCRIPTS_KEY _ w))).
  - unfold compileManuscript, bind. rewrite getManuscripts_typed_run.
    destruct (array_of_json _ _) as [ms|]; [|done].
    destruct (find _ ms); [|by intros [= <-]].
    unfold getDocumentsByManuscript, bind. rewrite getDocuments_typed_run.
    destruct (array_of_json _ _) as [ds|]; [|done]. by intros [= <-].
Qed.

Lemma reachable_arrays_stored w : reachable w → arrays_stored w.
Proof.
  induction 1 as [clock reads|w op w' _ IH Hop].
  - split; by eexists.
  - by eapply perform_arrays_stored.
Qed.

Lemma BackupData_props manuscripts documents userSettings version timestamp :
  let data :=
    BackupData manuscripts documents userSettings version timestamp in
  get_prop data "manuscripts" = Some (Some manuscripts)
  ∧ get_prop data "documents" = Some (Some documents)
  ∧ get_prop data "userSettings" = Some (Some userSettings).
Proof. done. Qed.

(** C7. In every store whose two collections are read as arrays, which
    is every store that the operations above lead to from an empty
    [localStorage] ([reachable_arrays_stored]), [createBackup] followed
    at once by [restoreBackup] of its output reports success and leaves a
    store that every getter reads as before; no other key of
    [localStorage] changes. *)
Theorem C7_backup_restore_noop (w : World) :
  arrays_stored w →
  ∃ blob w1 w2,
    createBackup w = Done blob w1
    ∧ restoreBackup blob w1 = Done true w2
    ∧ store_equivalent w w2.
Proof.
  intros [[ms Hms'] [ds Hds']].
  assert (getManuscripts w = Done (JArr ms) w) as Hms
    by (unfold getManuscripts, bind, getItem, ret; by f_equal).
  assert (getDocuments w = Done (JArr ds) w) as Hds
    by (unfold getDocuments, bind, getItem, ret; by f_equal).
  set (us := parse_or JNull (localStorage w !! USER_SETTINGS_KEY)).
  set (blob := JSON_stringify 2
                 (BackupData (JArr ms) (JArr ds) us 1 (clock w (reads w)))).
  cut (∃ w2, restoreBackup blob (tick w) = Done true w2
             ∧ store_equivalent w w2).
  { intros (w2 & Hrestore & Hequiv). exists blob, (tick w), w2.
    split; [|done]. unfold createBackup.
    by rewrite (bind_Done _ _ _ _ _ Hms), (bind_Done _ _ _ _ _ Hds). }
  unfold restoreBackup, blob. rewrite parse_stringify.
  destruct (BackupData_props (JArr ms) (JArr ds) us 1 (clock w (reads w)))
    as (-> & -> & ->).
  unfold store_equivalent, stored in *.
  destruct (truthy (Some us));
    (eexists; split; [reflexivity|]); simpl;
    repeat (rewrite lookup_insert_eq || rewrite lookup_insert_ne by done);
    rewrite ?parse_or_stringify;
    repeat split; try done;
    intros key H1 H2 H3; by rewrite !lookup_insert_ne.
Qed.

(** C6. A blob that is not JSON, or whose parsed value has no
    [manuscripts] array or no [documents] array, makes [restoreBackup]
    return [false] and leaves the world exactly as it was. *)
Theorem C6_restoreBackup_rejects (blob : string) (w : World) :
  malformed_backup blob → restoreBackup blob w = Done false w.
Proof.
  unfold malformed_backup, restoreBackup, field.
  destruct (JSON_parse blob) as [data|]; [|done].
  destruct (get_prop data "manuscripts") as [[[]|]|];
    destruct (get_prop data "documents") as [[[]|]|];
    simpl; intros [?|?]; done.
Qed.

(** *** [restoreBackup] accepts what is not malformed *)

Lemma get_prop_defined data k k' x :
  get_prop data k = Some x → ∃ y, get_prop data k' = Some y.
Proof. destruct data; simpl; intros [= <-]; eauto. Qed.

Lemma restoreBackup_accepts blob w :
  ¬ malformed_backup blob → ∃ w', restoreBackup blob w = Done true w'.
Proof.
  unfold malformed_backup, restoreBackup, field.
  destruct (JSON_parse blob) as [data|]; [|tauto].
  destruct (get_prop data "manuscripts") as [[[| | | |ms|]|]|] eqn:Hm;
    try (intros Hmal; exfalso; apply Hmal; by left).
  destruct (get_prop data "documents") as [[[| | | |ds|]|]|] eqn:Hd;
    try (intros Hmal; exfalso; apply Hmal; by right).
  intros _.
  destruct (get_prop_defined data "manuscripts" "userSettings" _ Hm)
    as [us ->].
  unfold bind. simpl.
  destruct (truthy us); [destruct us|]; eauto.
Qed.
(** *** [compileManuscript] *)

Lemma sort_insert_le {A} (compare : A → A → Z) x y l :
  (compare x y ≤ 0)%Z → sort_insert compare x (y :: l) = x :: y :: l.
Proof. intros Hle. simpl. by destruct (Z.leb_spec (compare x y) 0); [|lia]. Qed.

Lemma sort_insert_gt {A} (compare : A → A → Z) x y l :
  (0 < compare x y)%Z →
  sort_insert compare x (y :: l) = y :: sort_insert compare x l.
Proof. intros Hgt. simpl. by destruct (Z.leb_spec (compare x y) 0); [lia|]. Qed.

Lemma chapter_block_titled chapter :
  chapter_block chapter = titled_block chapter.
Proof.
  unfold chapter_block, titled_block, chapter_content, blank_line, newline.
  case_decide as Hp.
  - rewrite Hp. simpl.
    destruct (String.eqb_spec (Document.rawText chapter) "") as [->|]; done.
  - apply String.eqb_neq in Hp. by rewrite Hp.
Qed.

Lemma join_empty_concatenation texts : join_empty texts = concatenation texts.
Proof.
  unfold concatenation.
  induction texts as [|t texts IH]; [done|].
  destruct texts as [|t' texts]; [apply append_nil_r|].
  change (join_empty (t :: t' :: texts)) with (t +:+ join_empty (t' :: texts)).
  rewrite IH. reflexivity.
Qed.

Lemma find_manuscript ms mid :
  match find (λ m, String.eqb (Manuscript.id m) mid) ms with
  | Some _ => manuscript_exists ms mid
  | None => ¬ manuscript_exists ms mid
  end.
Proof.
  unfold manuscript_exists.
  induction ms as [|m ms IH]; simpl.
  - intros (m & Hm & _). by apply elem_of_nil in Hm.
  - destruct (String.eqb_spec (Manuscript.id m) mid) as [E|E].
    + exists m. split; [left | done].
    + destruct (find _ ms).
      * destruct IH as (m' & Hm' & E'). exists m'. split; [by right | done].
      * intros (m' & Hm' & E'). apply elem_of_cons in Hm' as [->|Hm']; [done|].
        apply IH. eauto.
Qed.

Lemma getDocumentsByManuscript_run manuscriptId ds w :
  getDocuments_typed w = Done ds w →
  getDocumentsByManuscript manuscriptId w
  = Done (filter (λ d, Document.manuscriptId d = manuscriptId) ds) w.
Proof.
  intros Hds. unfold getDocumentsByManuscript.
  by rewrite (bind_Done _ _ _ _ _ Hds).
Qed.

Lemma compileManuscript_run mid ms ds w :
  getManuscripts_typed w = Done ms w →
  getDocuments_typed w = Done ds w →
  compileManuscript mid w
  = match find (λ m, String.eqb (Manuscript.id m) mid) ms with
    | Some _ =>
        Done (join_empty
                (chapter_block
                   <$> sort (compare_by Document.createdAt)
                         (filter (λ d, Document.manuscriptId d = Some mid) ds)))
             w
    | None => Done "" w
    end.
Proof.
  intros Hms Hds. unfold compileManuscript.
  rewrite (bind_Done _ _ _ _ _ Hms).
  destruct (find _ ms); [|done].
  by rewrite (bind_Done _ _ _ _ _
               (getDocumentsByManuscript_run (Some mid) ds w Hds)).
Qed.

(** C5. With the store holding manuscripts [ms] and documents [ds],
    [compileManuscript mid] returns the empty string when no manuscript
    has id [mid]. Otherwise it returns the titled blocks of the
    documents whose [manuscriptId] is [mid], each block carrying the
    polished text when it is not empty and the raw text otherwise, in
    ascending order of [createdAt], documents created at the same
    instant keeping their stored order; three chapters A, B, C created
    at 300, 100 and 200 come out as B, C, A. Nothing is written. *)
Theorem C5_compileManuscript_order
    (mid : string) (ms : list Manuscript.t) (ds : list Document.t)
    (w : World) :
  getManuscripts_typed w = Done ms w →
  getDocuments_typed w = Done ds w →
  (¬ manuscript_exists ms mid → compileManuscript mid w = Done "" w)
  ∧ (manuscript_exists ms mid →
     ∃ chapters,
       compileManuscript mid w
       = Done (concatenation (titled_block <$> chapters)) w
       ∧ chapters ≡ₚ filter (λ d, Document.manuscriptId d = Some mid) ds
       ∧ StronglySorted (le_by Document.createdAt) chapters
       ∧ (∀ t, filter (λ d, Document.createdAt d = t) chapters
               = filter (λ d, Document.createdAt d = t)
                   (filter (λ d, Document.manuscriptId d = Some mid) ds))
       ∧ (∀ a b c,
            filter (λ d, Document.manuscriptId d = Some mid) ds = [a; b; c] →
            Document.createdAt a = 300%Z → Document.createdAt b = 100%Z →
            Document.createdAt c = 200%Z →
            chapters = [b; c; a])).
Proof.
  intros Hms Hds. rewrite (compileManuscript_run mid ms ds w Hms Hds).
  pose proof (find_manuscript ms mid) as Hfind.
  destruct (find _ ms) as [found|]; split; try done.
  intros _.
  exists (sort (compare_by Document.createdAt)
            (filter (λ d, Document.manuscriptId d = Some mid) ds)).
  split.
  { rewrite join_empty_concatenation. do 2 f_equal.
    apply list_fmap_ext. intros _ d _. apply chapter_block_titled. }
  split; [apply sort_perm|].
  split; [apply sort_sorted|].
  split; [intros instant; apply sort_stable|].
  intros a b c -> Ha Hb Hc. unfold sort. cbn [foldr].
  change (sort_insert (compare_by Document.createdAt) c []) with [c].
  rewrite (sort_insert_le _ b c) by (unfold compare_by; lia).
  rewrite (sort_insert_gt _ a b), (sort_insert_gt _ a c)
    by (unfold compare_by; lia).
  done.
Qed.

End StoreClaims.

(* ===================================================================== *)
(** * Part VIII: the store at work on a small library                     *)
(* ===================================================================== *)

Module LibraryFacts.
Import JSONText JSONTextFacts Library.

Lemma library_manuscripts : getManuscripts_typed library = Done manuscripts library.
Proof. vm_compute. reflexivity. Qed.

Lemma library_documents : getDocuments_typed library = Done documents library.
Proof. vm_compute. reflexivity. Qed.

(** C3 on the library: deleting the novel leaves the memoir, its chapter
    and the standalone note. *)
Lemma C3_deleteManuscript_cascade_witness :
  ∃ w', deleteManuscript "m1" library = Done tt w'
        ∧ getManuscripts_typed w' = Done [memoir] w'
        ∧ getDocuments_typed w' = Done [childhood; note] w'.
Proof.
  destruct (C3_deleteManuscript_cascade "m1" manuscripts documents library
              library_manuscripts library_documents)
    as (w' & ms' & ds' & Hrun & Hms' & Hds' & _ & _ & -> & -> & _).
  exists w'. split; [exact Hrun|]. split; [exact Hms' | exact Hds'].
Defined.

Lemma polished_library_manuscripts :
  getManuscripts_typed polished_library = Done manuscripts polished_library.
Proof. vm_compute. reflexivity. Qed.

Lemma polished_library_documents :
  getDocuments_typed polished_library
  = Done polished_documents polished_library.
Proof. vm_compute. reflexivity. Qed.

(** C5 on the library: the novel compiles to the blocks of B, C and A in
    this order, each with its raw text since none is polished; the
    memoir, once polished, compiles to the polished text of its
    chapter; a manuscript that does not exist compiles to the empty
    string. *)
Lemma C5_compileManuscript_order_witness :
  compileManuscript "m1" library
  = Done "--- B ---

draft of B

--- C ---

draft of C

--- A ---

draft of A

" library
  ∧ compileManuscript "m2" polished_library
    = Done "--- Childhood ---

I was born in a small town.

" polished_library
  ∧ compileManuscript "m9" library = Done "" library.
Proof.
  destruct (C5_compileManuscript_order "m1" manuscripts documents library
              library_manuscripts library_documents) as [_ Hsome].
  destruct (C5_compileManuscript_order "m2" manuscripts polished_documents
              polished_library polished_library_manuscripts
              polished_library_documents) as [_ Hpolished].
  destruct (C5_compileManuscript_order "m9" manuscripts documents library
              library_manuscripts library_documents) as [Hnone _].
  split; [|split].
  - destruct Hsome as (chapters & Hrun & _ & _ & _ & Horder).
    { exists novel. split; [left | reflexivity]. }
    rewrite (Horder chapterA chapterB chapterC eq_refl eq_refl eq_refl eq_refl)
      in Hrun.
    exact Hrun.
  - destruct Hpolished as (chapters & Hrun & Hperm & _).
    { exists memoir. split; [right; left | reflexivity]. }
    change (chapters ≡ₚ [polished_childhood]) in Hperm.
    apply Permutation_singleton_r in Hperm. rewrite Hperm in Hrun.
    exact Hrun.
  - apply Hnone. intros (m & Hm & Hid).
    repeat (apply elem_of_cons in Hm as [->|Hm]; [discriminate Hid|]).
    by apply elem_of_nil in Hm.
Defined.

Lemma truncated_backup_malformed : malformed_backup truncated_backup.
Proof. right. vm_compute. reflexivity. Qed.

(** C6 on the library: neither the truncated backup nor plain text
    changes anything. *)
Lemma C6_restoreBackup_rejects_witness :
  restoreBackup truncated_backup library = Done false library
  ∧ restoreBackup "not a backup" library = Done false library.
Proof.
  split.
  - exact (C6_restoreBackup_rejects truncated_backup library
             truncated_backup_malformed).
  - exact (C6_restoreBackup_rejects "not a backup" library I).
Defined.

Lemma library_arrays_stored : arrays_stored library.
Proof. split; eexists; vm_compute; reflexivity. Qed.

(** C7 on the library. *)
Lemma C7_backup_restore_noop_witness :
  ∃ blob w1 w2,
    createBackup library = Done blob w1
    ∧ restoreBackup blob w1 = Done true w2
    ∧ store_equivalent library w2.
Proof. exact (C7_backup_restore_noop library library_arrays_stored). Defined.

(** C2 fails on the code. A document saved twice through
    [handleSaveDocument] is inserted with the [createdAt] the store read
    from the clock (4000); the second save finds the id and stores the
    caller's record whole, so the document read back afterwards carries
    the caller's fresh [createdAt] (5000), not the one of its first
    insert. The other fields are those of the second save and
    [updatedAt] has moved forward. *)
Theorem C2_createdAt_overwritten_on_update :
  Document.createdAt <$> result first_save = Some 4000%Z
  ∧ Document.createdAt <$> result second_save = Some 5000%Z
  ∧ result read_back = Some (result second_save)
  ∧ Document.rawText <$> result second_save = Some "hello world "
  ∧ Document.updatedAt <$> result first_save = Some 3000%Z
  ∧ Document.updatedAt <$> result second_save = Some 7000%Z.
Proof. vm_compute. repeat split. Qed.

(** What follows from it: [compileManuscript] sorts by [createdAt] to
    get the order in which the chapters were written, and a chapter that
    is saved again moves to the end of the compiled manuscript. *)
Lemma resaving_reorders_compilation :
  result (writing_session empty_world)
  = Some (block "One" "first" +:+ block "Two" "second",
          block "Two" "second" +:+ block "One" "first, revised").
Proof. vm_compute. reflexivity. Qed.

End LibraryFacts.

(* ===================================================================== *)
(** * Part IX: more about the document store                              *)
(* ===================================================================== *)

(** *** Lists *)

Lemma findIndex_cases {A} (p : A → bool) (l : list A) :
  ((0 <=? findIndex p l)%Z = true
   ∧ ∃ pre x post,
       l = pre ++ x :: post ∧ Forall (λ y, p y = false) pre ∧ p x = true
       ∧ Z.to_nat (findIndex p l) = length pre)
  ∨ ((0 <=? findIndex p l)%Z = false ∧ Forall (λ y, p y = false) l).
Proof.
  destruct (Z.leb_spec 0 (findIndex p l)) as [Hfound|Habsent].
  - left. split; [done|].
    destruct (findIndex_from_found p l 0%Z)
      as (pre & x & post & -> & Hpre & Hx & Hidx); [done|done|].
    exists pre, x, post. repeat split; try done.
    unfold findIndex. rewrite Hidx. lia.
  - right. split; [done|].
    apply (findIndex_from_absent p l 0%Z); [done|].
    unfold findIndex in Habsent. lia.
Qed.

Lemma NoDup_fmap_filter {A B} (f : A → B) (P : A → Prop)
    `{∀ x, Decision (P x)} (l : list A) :
  NoDup (f <$> l) → NoDup (f <$> filter P l).
Proof.
  induction l as [|x l IH]; [done|].
  rewrite fmap_cons, NoDup_cons. intros [Hx Hl].
  rewrite filter_cons. case_decide; [|by apply IH].
  rewrite fmap_cons, NoDup_cons. split; [|by apply IH].
  intros Hin. apply Hx.
  apply list_elem_of_fmap in Hin as (y & -> & Hy).
  apply list_elem_of_filter in Hy as [_ Hy].
  apply list_elem_of_fmap. eauto.
Qed.

Lemma filter_idemp {A} (P : A → Prop) `{∀ x, Decision (P x)} (l : list A) :
  filter P (filter P l) = filter P l.
Proof.
  induction l as [|x l IH]; [done|].
  rewrite filter_cons. case_decide as Hx; [|done].
  rewrite filter_cons. case_decide; [|done]. by rewrite IH.
Qed.

Lemma filter_all {A} (P : A → Prop) `{∀ x, Decision (P x)} (l : list A) :
  Forall P l → filter P l = l.
Proof.
  induction 1 as [|x l Hx _ IH]; [done|].
  rewrite filter_cons. case_decide; [|done]. by rewrite IH.
Qed.

Lemma filter_filter_other {A} (P Q : A → Prop) `{∀ x, Decision (P x)}
    `{∀ x, Decision (Q x)} (l : list A) :
  (∀ x, P x → Q x) → filter P (filter Q l) = filter P l.
Proof.
  intros Himp. induction l as [|x l IH]; [done|].
  rewrite !(filter_cons _ x). destruct (decide (P x)) as [HP|HP].
  - rewrite decide_True by auto. rewrite filter_cons, decide_True by done.
    by rewrite IH.
  - case_decide; [|done]. rewrite filter_cons, decide_False by done. done.
Qed.

Lemma filter_filter_none {A} (P Q : A → Prop) `{∀ x, Decision (P x)}
    `{∀ x, Decision (Q x)} (l : list A) :
  (∀ x, P x → ¬ Q x) → filter P (filter Q l) = [].
Proof.
  intros Himp. induction l as [|x l IH]; [done|].
  rewrite (filter_cons _ x). case_decide as HQ; [|done].
  rewrite filter_cons, decide_False; [done|]. intros HP. by apply (Himp x).
Qed.

Lemma filter_other_middle {A} (P : A → Prop) `{∀ x, Decision (P x)}
    (pre post : list A) (x y : A) :
  ¬ P x → ¬ P y → filter P (pre ++ x :: post) = filter P (pre ++ y :: post).
Proof.
  intros Hx Hy. rewrite !filter_app, !filter_cons.
  by rewrite !decide_False.
Qed.

Lemma filter_other_end {A} (P : A → Prop) `{∀ x, Decision (P x)}
    (l : list A) (x : A) :
  ¬ P x → filter P (l ++ [x]) = filter P l.
Proof.
  intros Hx. rewrite filter_app, filter_cons, decide_False by done.
  by rewrite filter_nil, app_nil_r.
Qed.

Lemma find_filter {A} (p : A → bool) (P : A → Prop) `{∀ x, Decision (P x)}
    (l : list A) :
  (∀ x, p x = true → P x) → find p (filter P l) = find p l.
Proof.
  intros Himp. induction l as [|x l IH]; [done|].
  rewrite filter_cons. simpl. destruct (p x) eqn:Hx.
  - rewrite decide_True by auto. simpl. by rewrite Hx.
  - case_decide; [|done]. simpl. by rewrite Hx.
Qed.

Lemma find_filter_none {A} (p : A → bool) (P : A → Prop)
    `{∀ x, Decision (P x)} (l : list A) :
  (∀ x, p x = true → ¬ P x) → find p (filter P l) = None.
Proof.
  intros Himp. apply find_absent. apply Forall_forall. intros x Hx.
  apply list_elem_of_filter in Hx as [HP _].
  destruct (p x) eqn:E; [|done]. by destruct (Himp x E).
Qed.

(** Two lists that agree away from the key [k] agree on what [find]
    returns for any other key. *)
Lemma find_other {A} (key : A → string) (k : string) (l l' : list A) :
  filter (λ x, key x ≠ k) l' = filter (λ x, key x ≠ k) l →
  ∀ other, other ≠ k →
    find (λ x, String.eqb (key x) other) l'
    = find (λ x, String.eqb (key x) other) l.
Proof.
  intros Hfilter other Hother.
  rewrite <- (find_filter _ (λ x, key x ≠ k) l),
          <- (find_filter _ (λ x, key x ≠ k) l').
  - by rewrite Hfilter.
  - intros x Hx%String.eqb_eq. congruence.
  - intros x Hx%String.eqb_eq. congruence.
Qed.

Lemma elem_of_fmap_middle {A B} (f : A → B) (pre post : list A) x :
  f x ∈ f <$> (pre ++ x :: post).
Proof.
  apply list_elem_of_fmap. exists x. split; [done|].
  apply elem_of_app. right. left.
Qed.

Lemma not_elem_of_fmap {A B} (f : A → B) (l : list A) b :
  Forall (λ x, f x ≠ b) l → b ∉ f <$> l.
Proof.
  intros Hall Hin. apply list_elem_of_fmap in Hin as (x & -> & Hx).
  rewrite Forall_forall in Hall. by apply (Hall x).
Qed.

Lemma NoDup_ids_middle {A} (key : A → string) pre old saved post :
  key old = key saved →
  NoDup (key <$> (pre ++ old :: post)) →
  NoDup (key <$> (pre ++ saved :: post)).
Proof. intros E. rewrite !fmap_app, !fmap_cons. by rewrite E. Qed.

Lemma NoDup_ids_end {A} (key : A → string) l saved :
  Forall (λ x, key x ≠ key saved) l →
  NoDup (key <$> l) → NoDup (key <$> (l ++ [saved])).
Proof.
  intros Hall Hl. rewrite fmap_app. apply NoDup_app. split; [done|].
  split; [|apply NoDup_singleton].
  intros k Hk Hk'. apply list_elem_of_singleton in Hk'. subst k.
  by apply (not_elem_of_fmap key l (key saved)).
Qed.

(** The first element that fails [P] splits a list in one way only. *)
Lemma middle_unique {A} (P : A → Prop) (pre pre' post post' : list A)
    (x x' : A) :
  pre ++ x :: post = pre' ++ x' :: post' →
  Forall P pre → Forall P pre' → ¬ P x → ¬ P x' →
  pre' = pre ∧ x' = x ∧ post' = post.
Proof.
  intros E Hpre. revert pre' E.
  induction Hpre as [|y pre Hy _ IH]; intros pre' E Hpre' Hx Hx'.
  - destruct pre' as [|z pre']; simpl in E.
    + by injection E as -> ->.
    + injection E as <- E. by apply Forall_cons in Hpre' as [? _].
  - destruct pre' as [|z pre']; simpl in E.
    + injection E as -> E. done.
    + injection E as <- E. apply Forall_cons in Hpre' as [_ Hpre'].
      by destruct (IH pre' E Hpre' Hx Hx') as (-> & -> & ->).
Qed.

(** *** Writing the same entry twice *)

Lemma put_put key v w : put key v (put key v w) = put key v w.
Proof. unfold put. simpl. by rewrite insert_insert_eq. Qed.

Lemma put_restored km vm kd vd (w : World) :
  put kd vd (put km vm (put kd vd (put km vm w))) = put kd vd (put km vm w).
Proof.
  unfold put. simpl. f_equal. apply map_eq. intros k.
  destruct (decide (k = kd)) as [->|Hd].
  { by rewrite !lookup_insert_eq. }
  rewrite !(lookup_insert_ne _ kd) by done.
  destruct (decide (k = km)) as [->|Hm].
  { by rewrite !lookup_insert_eq. }
  rewrite !(lookup_insert_ne _ km) by done.
  rewrite !(lookup_insert_ne _ kd) by done.
  by rewrite !(lookup_insert_ne _ km) by done.
Qed.

Lemma put_restored_settings km vm kd vd ku vu (w : World) :
  put ku vu (put kd vd (put km vm (put ku vu (put kd vd (put km vm w)))))
  = put ku vu (put kd vd (put km vm w)).
Proof.
  unfold put. simpl. f_equal. apply map_eq. intros k.
  destruct (decide (k = ku)) as [->|Hu].
  { by rewrite !lookup_insert_eq. }
  rewrite !(lookup_insert_ne _ ku) by done.
  destruct (decide (k = kd)) as [->|Hd].
  { by rewrite !lookup_insert_eq. }
  rewrite !(lookup_insert_ne _ kd) by done.
  destruct (decide (k = km)) as [->|Hm].
  { by rewrite !lookup_insert_eq. }
  rewrite !(lookup_insert_ne _ km) by done.
  rewrite !(lookup_insert_ne _ ku) by done.
  rewrite !(lookup_insert_ne _ kd) by done.
  by rewrite !(lookup_insert_ne _ km) by done.
Qed.

(** *** Running the other operations *)

(** Reading an entry back through the writes made since. *)
Ltac stored_put :=
  repeat (rewrite stored_put_eq || rewrite stored_put_ne by done).

Section StoreMore.
Context `{JSONLaws}.

Lemma getUserSettings_run w :
  getUserSettings w = Done (stored USER_SETTINGS_KEY JNull w) w.
Proof. done. Qed.

Lemma getManuscripts_run w :
  getManuscripts w = Done (stored MANUSCRIPTS_KEY (JArr []) w) w.
Proof. done. Qed.

Lemma getDocuments_run w :
  getDocuments w = Done (stored DOCS_KEY (JArr []) w) w.
Proof. done. Qed.

Lemma getDocument_run id ds w :
  getDocuments_typed w = Done ds w →
  getDocument id w = Done (find (λ d, String.eqb (Document.id d) id) ds) w.
Proof. intros Hds. unfold getDocument. by rewrite (bind_Done _ _ _ _ _ Hds). Qed.

Lemma getDocuments_typed_tick ds w :
  getDocuments_typed w = Done ds w →
  getDocuments_typed (tick (tick w)) = Done ds (tick (tick w)).
Proof. by apply getDocuments_typed_stored. Qed.

Lemma same_id_false doc d :
  same_id doc d = false ↔ Document.id d ≠ Document.id doc.
Proof. unfold same_id. apply String.eqb_neq. Qed.

Lemma same_manuscript_false manuscript m :
  same_manuscript manuscript m = false
  ↔ Manuscript.id m ≠ Manuscript.id manuscript.
Proof. unfold same_manuscript. apply String.eqb_neq. Qed.

Lemma saveManuscript_run manuscript ms w :
  getManuscripts_typed w = Done ms w →
  saveManuscript manuscript w
  = let index := findIndex (same_manuscript manuscript) ms in
    let now := clock w (reads w) in
    let updated := Manuscript.set_updatedAt now manuscript in
    if (0 <=? index)%Z then
      Done updated
        (put MANUSCRIPTS_KEY
           (JSON_stringify 0
              (array_to_json Manuscript.to_json
                 (<[Z.to_nat index := updated]> ms)))
           (tick w))
    else
      let updated :=
        Manuscript.set_createdAt (clock w (S (reads w))) updated in
      Done updated
        (put MANUSCRIPTS_KEY
           (JSON_stringify 0
              (array_to_json Manuscript.to_json (ms ++ [updated])))
           (tick (tick w))).
Proof.
  intros Hget. unfold saveManuscript.
  rewrite (bind_Done _ _ _ _ _ Hget). cbv zeta.
  fold (same_manuscript manuscript). unfold bind at 1. unfold Date_now at 1.
  fold (tick w).
  by destruct (0 <=? findIndex (same_manuscript manuscript) ms)%Z.
Qed.

(** What [saveDocument] leaves in the store: the first document with
    the same id is replaced where it stands, or the document is put at
    the end. *)
Lemma saveDocument_stored doc ds w :
  getDocuments_typed w = Done ds w →
  ∃ saved w',
    saveDocument doc w = Done saved w'
    ∧ clock w' = clock w
    ∧ stored MANUSCRIPTS_KEY (JArr []) w' = stored MANUSCRIPTS_KEY (JArr []) w
    ∧ stored USER_SETTINGS_KEY JNull w' = stored USER_SETTINGS_KEY JNull w
    ∧ ((∃ pre old post,
          ds = pre ++ old :: post
          ∧ Forall (λ d, Document.id d ≠ Document.id doc) pre
          ∧ Document.id old = Document.id doc
          ∧ saved = Document.set_updatedAt (clock w (reads w)) doc
          ∧ reads w' = S (reads w)
          ∧ getDocuments_typed w' = Done (pre ++ saved :: post) w')
       ∨ (Forall (λ d, Document.id d ≠ Document.id doc) ds
          ∧ saved = Document.set_createdAt (clock w (S (reads w)))
                      (Document.set_updatedAt (clock w (reads w)) doc)
          ∧ reads w' = S (S (reads w))
          ∧ getDocuments_typed w' = Done (ds ++ [saved]) w')).
Proof.
  intros Hget. rewrite (saveDocument_run doc ds w Hget). cbv zeta.
  destruct (findIndex_cases (same_id doc) ds)
    as [[-> (pre & old & post & -> & Hpre & Hold & ->)] | [-> Hnone]].
  - eexists _, _. split; [done|]. split; [done|].
    split; [by rewrite stored_put_ne|]. split; [by rewrite stored_put_ne|].
    left. exists pre, old, post. split; [done|].
    split; [eapply Forall_impl; [exact Hpre|]; intros d; apply same_id_false|].
    split; [by apply String.eqb_eq in Hold|]. split; [done|]. split; [done|].
    rewrite insert_middle. apply getDocuments_typed_put.
  - eexists _, _. split; [done|]. split; [done|].
    split; [by rewrite stored_put_ne|]. split; [by rewrite stored_put_ne|].
    right.
    split; [eapply Forall_impl; [exact Hnone|]; intros d; apply same_id_false|].
    split; [done|]. split; [done|]. apply getDocuments_typed_put.
Qed.

Lemma saveManuscript_stored manuscript ms w :
  getManuscripts_typed w = Done ms w →
  ∃ saved w',
    saveManuscript manuscript w = Done saved w'
    ∧ clock w' = clock w
    ∧ stored DOCS_KEY (JArr []) w' = stored DOCS_KEY (JArr []) w
    ∧ stored USER_SETTINGS_KEY JNull w' = stored USER_SETTINGS_KEY JNull w
    ∧ ((∃ pre old post,
          ms = pre ++ old :: post
          ∧ Forall (λ m, Manuscript.id m ≠ Manuscript.id manuscript) pre
          ∧ Manuscript.id old = Manuscript.id manuscript
          ∧ saved = Manuscript.set_updatedAt (clock w (reads w)) manuscript
          ∧ reads w' = S (reads w)
          ∧ getManuscripts_typed w' = Done (pre ++ saved :: post) w')
       ∨ (Forall (λ m, Manuscript.id m ≠ Manuscript.id manuscript) ms
          ∧ saved = Manuscript.set_createdAt (clock w (S (reads w)))
                      (Manuscript.set_updatedAt (clock w (reads w)) manuscript)
          ∧ reads w' = S (S (reads w))
          ∧ getManuscripts_typed w' = Done (ms ++ [saved]) w')).
Proof.
  intros Hget. rewrite (saveManuscript_run manuscript ms w Hget). cbv zeta.
  destruct (findIndex_cases (same_manuscript manuscript) ms)
    as [[-> (pre & old & post & -> & Hpre & Hold & ->)] | [-> Hnone]].
  - eexists _, _. split; [done|]. split; [done|].
    split; [by rewrite stored_put_ne|]. split; [by rewrite stored_put_ne|].
    left. exists pre, old, post. split; [done|].
    split; [eapply Forall_impl; [exact Hpre|]; intros d;
            apply same_manuscript_false|].
    split; [by apply String.eqb_eq in Hold|]. split; [done|]. split; [done|].
    rewrite insert_middle. apply getManuscripts_typed_put.
  - eexists _, _. split; [done|]. split; [done|].
    split; [by rewrite stored_put_ne|]. split; [by rewrite stored_put_ne|].
    right.
    split; [eapply Forall_impl; [exact Hnone|]; intros d;
            apply same_manuscript_false|].
    split; [done|]. split; [done|]. apply getManuscripts_typed_put.
Qed.

Lemma deleteDocument_run id ds w :
  getDocuments_typed w = Done ds w →
  deleteDocument id w
  = Done tt
      (put DOCS_KEY
         (JSON_stringify 0
            (array_to_json Document.to_json
               (filter (λ d, Document.id d ≠ id) ds)))
         w).
Proof.
  intros Hds. unfold deleteDocument. by rewrite (bind_Done _ _ _ _ _ Hds).
Qed.

Lemma createBackup_run w :
  createBackup w
  = Done (JSON_stringify 2
            (BackupData (stored MANUSCRIPTS_KEY (JArr []) w)
               (stored DOCS_KEY (JArr []) w)
               (stored USER_SETTINGS_KEY JNull w) 1 (clock w (reads w))))
         (tick w).
Proof. done. Qed.

(** The writes of an accepted [restoreBackup]. *)
Lemma restoreBackup_run blob data ms ds w :
  JSON_parse blob = Some data →
  field data "manuscripts" = Some (JArr ms) →
  field data "documents" = Some (JArr ds) →
  restoreBackup blob w
  = Done true
      (let w' :=
         put DOCS_KEY (JSON_stringify 0 (JArr ds))
           (put MANUSCRIPTS_KEY (JSON_stringify 0 (JArr ms)) w) in
       match field data "userSettings" with
       | Some us =>
           if truthy (Some us)
           then put USER_SETTINGS_KEY (JSON_stringify 0 us) w'
           else w'
       | None => w'
       end).
Proof.
  unfold field. intros Hparse Hm Hd. unfold restoreBackup. rewrite Hparse.
  destruct (get_prop data "manuscripts") as [[m|]|] eqn:Em; try done.
  destruct (get_prop data "documents") as [[d|]|] eqn:Ed; try done.
  injection Hm as ->. injection Hd as ->.
  destruct (get_prop_defined data "manuscripts" "userSettings" _ Em)
    as [us ->].
  unfold bind, setItem, ret, put.
  destruct us as [us|]; [|done]. by destruct (truthy (Some us)).
Qed.

(** *** Saving *)

(** X1. With the store holding documents [ds], [saveDocument doc]
    touches no document but the one it saves: the documents with
    another id are the same records in the same order, so [find] by any
    other id returns what it returned before; the sequence of ids is
    unchanged when the id was already stored (the record is replaced
    where it stands) and has the new id at its end otherwise; the
    manuscripts and the user settings are read as before. *)
Theorem saveDocument_keeps_other_documents
    (doc : Document.t) (ds : list Document.t) (w : World) :
  getDocuments_typed w = Done ds w →
  ∃ saved w' ds',
    saveDocument doc w = Done saved w'
    ∧ getDocuments_typed w' = Done ds' w'
    ∧ filter (λ d, Document.id d ≠ Document.id doc) ds'
      = filter (λ d, Document.id d ≠ Document.id doc) ds
    ∧ Document.id <$> ds'
      = (if decide (Document.id doc ∈ Document.id <$> ds)
         then Document.id <$> ds
         else (Document.id <$> ds) ++ [Document.id doc])
    ∧ (∀ other, other ≠ Document.id doc →
         find (λ d, String.eqb (Document.id d) other) ds'
         = find (λ d, String.eqb (Document.id d) other) ds)
    ∧ stored MANUSCRIPTS_KEY (JArr []) w' = stored MANUSCRIPTS_KEY (JArr []) w
    ∧ stored USER_SETTINGS_KEY JNull w' = stored USER_SETTINGS_KEY JNull w.
Proof.
  intros Hds.
  destruct (saveDocument_stored doc ds w Hds)
    as (saved & w' & Hsave & _ & Hm & Hu & Hcases).
  destruct Hcases
    as [(pre & old & post & -> & Hpre & Hold & -> & _ & Hread)
       | (Hnone & -> & _ & Hread)].
  - eexists _, _, _. split; [exact Hsave|]. split; [exact Hread|].
    assert (filter (λ d, Document.id d ≠ Document.id doc)
              (pre ++ Document.set_updatedAt (clock w (reads w)) doc :: post)
            = filter (λ d, Document.id d ≠ Document.id doc)
                (pre ++ old :: post)) as Hfilter
      by (apply filter_other_middle; simpl; tauto).
    split; [exact Hfilter|].
    split.
    { rewrite decide_True by (rewrite <- Hold; apply elem_of_fmap_middle).
      rewrite !fmap_app, !fmap_cons. simpl. by rewrite Hold. }
    split; [by apply (find_other Document.id)|]. done.
  - eexists _, _, _. split; [exact Hsave|]. split; [exact Hread|].
    assert (filter (λ d, Document.id d ≠ Document.id doc)
              (ds ++ [Document.set_createdAt (clock w (S (reads w)))
                        (Document.set_updatedAt (clock w (reads w)) doc)])
            = filter (λ d, Document.id d ≠ Document.id doc) ds) as Hfilter
      by (apply filter_other_end; simpl; tauto).
    split; [exact Hfilter|].
    split.
    { rewrite decide_False by (by apply not_elem_of_fmap).
      by rewrite fmap_app. }
    split; [by apply (find_other Document.id)|]. done.
Qed.

(** X2. With the store holding manuscripts [ms], [saveManuscript
    manuscript] returns and stores the caller's record with [updatedAt]
    read from the clock; when the id is new the record gets a
    [createdAt] from a second reading of the clock and goes to the end
    of the list, when the id is already stored the record replaces the
    stored one where it stands and keeps the [createdAt] the caller
    passed. The other manuscripts are the same records in the same
    order, and the documents and the user settings are read as
    before. *)
Theorem saveManuscript_upsert
    (manuscript : Manuscript.t) (ms : list Manuscript.t) (w : World) :
  getManuscripts_typed w = Done ms w →
  ∃ saved w' ms',
    saveManuscript manuscript w = Done saved w'
    ∧ getManuscripts_typed w' = Done ms' w'
    ∧ find (same_manuscript manuscript) ms' = Some saved
    ∧ Manuscript.id saved = Manuscript.id manuscript
    ∧ Manuscript.title saved = Manuscript.title manuscript
    ∧ Manuscript.updatedAt saved = clock w (reads w)
    ∧ Manuscript.createdAt saved
      = (if decide (Manuscript.id manuscript ∈ Manuscript.id <$> ms)
         then Manuscript.createdAt manuscript
         else clock w (S (reads w)))
    ∧ Manuscript.id <$> ms'
      = (if decide (Manuscript.id manuscript ∈ Manuscript.id <$> ms)
         then Manuscript.id <$> ms
         else (Manuscript.id <$> ms) ++ [Manuscript.id manuscript])
    ∧ filter (λ m, Manuscript.id m ≠ Manuscript.id manuscript) ms'
      = filter (λ m, Manuscript.id m ≠ Manuscript.id manuscript) ms
    ∧ stored DOCS_KEY (JArr []) w' = stored DOCS_KEY (JArr []) w
    ∧ stored USER_SETTINGS_KEY JNull w' = stored USER_SETTINGS_KEY JNull w.
Proof.
  intros Hms.
  destruct (saveManuscript_stored manuscript ms w Hms)
    as (saved & w' & Hsave & _ & Hd & Hu & Hcases).
  assert (∀ pre, Forall (λ m, Manuscript.id m ≠ Manuscript.id manuscript) pre →
                 Forall (λ m, same_manuscript manuscript m = false) pre)
    as Hfalse.
  { intros pre Hpre. eapply Forall_impl; [exact Hpre|].
    intros m. apply same_manuscript_false. }
  destruct Hcases
    as [(pre & old & post & -> & Hpre & Hold & -> & _ & Hread)
       | (Hnone & -> & _ & Hread)].
  - eexists _, _, _. split; [exact Hsave|]. split; [exact Hread|].
    split.
    { rewrite (find_app_absent _ _ _ (Hfalse _ Hpre)).
      apply find_here, String.eqb_refl. }
    do 3 (split; [done|]).
    assert (Manuscript.id manuscript ∈ Manuscript.id <$> pre ++ old :: post)
      as Hin by (rewrite <- Hold; apply elem_of_fmap_middle).
    rewrite !decide_True by exact Hin.
    split; [done|].
    split; [rewrite !fmap_app, !fmap_cons; simpl; by rewrite Hold|].
    split; [apply filter_other_middle; simpl; tauto|]. done.
  - eexists _, _, _. split; [exact Hsave|]. split; [exact Hread|].
    split.
    { rewrite (find_app_absent _ _ _ (Hfalse _ Hnone)).
      apply find_here, String.eqb_refl. }
    do 3 (split; [done|]).
    rewrite !decide_False by (by apply not_elem_of_fmap).
    split; [done|].
    split; [by rewrite fmap_app|].
    split; [apply filter_other_end; simpl; tauto|]. done.
Qed.

(** X3. A document saved under an id that is not yet stored shows up
    last in the list that [getDocumentsByManuscript] returns for its own
    [manuscriptId] (for [undefined]: among the documents that belong to
    no manuscript), and the list returned for any other argument is the
    one returned before. *)
Theorem new_document_listed
    (doc : Document.t) (ds : list Document.t) (w : World) :
  getDocuments_typed w = Done ds w →
  Document.id doc ∉ Document.id <$> ds →
  ∃ saved w',
    saveDocument doc w = Done saved w'
    ∧ Document.manuscriptId saved = Document.manuscriptId doc
    ∧ ∀ manuscriptId,
        ∃ listed,
          getDocumentsByManuscript manuscriptId w = Done listed w
          ∧ getDocumentsByManuscript manuscriptId w'
            = Done (if decide (Document.manuscriptId doc = manuscriptId)
                    then listed ++ [saved] else listed) w'.
Proof.
  intros Hds Hnew.
  destruct (saveDocument_stored doc ds w Hds)
    as (saved & w' & Hsave & _ & _ & _
        & [(pre & old & post & -> & _ & Hold & _) | (_ & -> & _ & Hread)]).
  { destruct Hnew. rewrite <- Hold. apply elem_of_fmap_middle. }
  eexists _, w'. split; [exact Hsave|]. split; [done|].
  intros manuscriptId. eexists.
  split; [by apply getDocumentsByManuscript_run|].
  rewrite (getDocumentsByManuscript_run _ _ _ Hread). f_equal.
  rewrite filter_app, filter_cons, filter_nil. simpl.
  case_decide; [done|]. by rewrite app_nil_r.
Qed.

(** *** Deleting *)

(** X4. With the store holding documents [ds], [deleteDocument id]
    leaves the documents whose id is not [id], in their order;
    [getDocument id] then finds nothing and [getDocument] of any other
    id finds what it found before; when no document has that id the
    list read back is [ds] itself; deleting the same id again changes
    nothing at all; the manuscripts and the user settings are read as
    before. *)
Theorem deleteDocument_removes
    (id : string) (ds : list Document.t) (w : World) :
  getDocuments_typed w = Done ds w →
  ∃ w',
    deleteDocument id w = Done tt w'
    ∧ getDocuments_typed w' = Done (filter (λ d, Document.id d ≠ id) ds) w'
    ∧ getDocument id w' = Done None w'
    ∧ (∀ other, other ≠ id →
         ∃ found, getDocument other w = Done found w
                  ∧ getDocument other w' = Done found w')
    ∧ (Forall (λ d, Document.id d ≠ id) ds →
         getDocuments_typed w' = Done ds w')
    ∧ deleteDocument id w' = Done tt w'
    ∧ stored MANUSCRIPTS_KEY (JArr []) w' = stored MANUSCRIPTS_KEY (JArr []) w
    ∧ stored USER_SETTINGS_KEY JNull w' = stored USER_SETTINGS_KEY JNull w.
Proof.
  intros Hds. rewrite (deleteDocument_run id ds w Hds).
  eexists. split; [reflexivity|].
  pose proof (getDocuments_typed_put (filter (λ d, Document.id d ≠ id) ds) w)
    as Hread.
  split; [exact Hread|].
  split.
  { rewrite (getDocument_run _ _ _ Hread). f_equal.
    apply find_filter_none. intros d Hd%String.eqb_eq. tauto. }
  split.
  { intros other Hother. eexists. split; [by apply getDocument_run|].
    rewrite (getDocument_run _ _ _ Hread). f_equal.
    apply find_filter. intros d Hd%String.eqb_eq. congruence. }
  split; [intros Hnone; by rewrite (filter_all _ _ Hnone) in Hread at 2|].
  split.
  { rewrite (deleteDocument_run id _ _ Hread).
    by rewrite filter_idemp, put_put. }
  split; by rewrite stored_put_ne.
Qed.

(** X5. [compileManuscript] returns the empty string for a manuscript
    that exists but has no chapter, as it does for one that does not
    exist. After [deleteManuscript mid] the manuscript compiles to the
    empty string and [getDocumentsByManuscript mid] is empty, while
    every other manuscript compiles to the text it compiled to
    before. *)
Theorem compileManuscript_after_delete
    (mid : string) (ms : list Manuscript.t) (ds : list Document.t)
    (w : World) :
  getManuscripts_typed w = Done ms w →
  getDocuments_typed w = Done ds w →
  (filter (λ d, Document.manuscriptId d = Some mid) ds = [] →
     compileManuscript mid w = Done "" w)
  ∧ ∃ w',
      deleteManuscript mid w = Done tt w'
      ∧ compileManuscript mid w' = Done "" w'
      ∧ getDocumentsByManuscript (Some mid) w' = Done [] w'
      ∧ ∀ other, other ≠ mid →
          ∃ text, compileManuscript other w = Done text w
                  ∧ compileManuscript other w' = Done text w'.
Proof.
  intros Hms Hds. split.
  { intros Hnone. rewrite (compileManuscript_run mid ms ds w Hms Hds), Hnone.
    by destruct (find _ ms). }
  rewrite (deleteManuscript_run mid ms ds w Hms Hds).
  eexists. split; [reflexivity|].
  set (w' := put DOCS_KEY _ _).
  assert (getManuscripts_typed w'
          = Done (filter (λ m, Manuscript.id m ≠ mid) ms) w') as Hms'.
  { eapply getManuscripts_typed_stored; [|apply getManuscripts_typed_put].
    unfold w'. by rewrite stored_put_ne. }
  assert (getDocuments_typed w'
          = Done (filter (λ d, Document.manuscriptId d ≠ Some mid) ds) w')
    as Hds' by apply getDocuments_typed_put.
  split.
  { rewrite (compileManuscript_run mid _ _ w' Hms' Hds').
    rewrite find_filter_none; [done|].
    intros m Hm%String.eqb_eq. tauto. }
  split.
  { rewrite (getDocumentsByManuscript_run _ _ _ Hds'). f_equal.
    apply filter_filter_none. intros d Hd. congruence. }
  intros other Hother.
  rewrite (compileManuscript_run other _ _ w Hms Hds).
  rewrite (compileManuscript_run other _ _ w' Hms' Hds').
  rewrite find_filter by (intros m Hm%String.eqb_eq; congruence).
  rewrite filter_filter_other by (intros d Hd; congruence).
  destruct (find _ ms); by eexists.
Qed.

(** *** What the operations preserve *)

Lemma unique_ids_stored w w' :
  stored MANUSCRIPTS_KEY (JArr []) w' = stored MANUSCRIPTS_KEY (JArr []) w →
  stored DOCS_KEY (JArr []) w' = stored DOCS_KEY (JArr []) w →
  unique_ids w → unique_ids w'.
Proof.
  intros Hm Hd (ms & ds & Hms & Hds & Hums & Huds).
  exists ms, ds. split; [by eapply getManuscripts_typed_stored|].
  split; [by eapply getDocuments_typed_stored|]. done.
Qed.

Lemma unique_ids_fresh clock reads :
  unique_ids {| localStorage := ∅; clock := clock; reads := reads |}.
Proof. exists [], []. repeat split; constructor. Qed.

Lemma perform_unique_ids op w :
  unique_ids w → is_restore op = false →
  ∃ w', perform op w = Some w' ∧ unique_ids w'.
Proof.
  intros Hw Hop. pose proof Hw as (ms & ds & Hms & Hds & Hums & Huds).
  destruct op as [settings|manuscript|mid|doc|id| |blob|mid];
    simpl in *; try done.
  - eexists. split; [reflexivity|].
    apply (unique_ids_stored w); [| |done]; by apply stored_put_ne.
  - destruct (saveManuscript_stored manuscript ms w Hms)
      as (saved & w' & -> & _ & Hd & _ & Hcases).
    exists w'. split; [done|].
    destruct Hcases as [(pre & old & post & E & _ & Hold & -> & _ & Hread)
                       | (Hnone & -> & _ & Hread)].
    + subst ms. eexists _, ds. split; [exact Hread|].
      split; [by eapply getDocuments_typed_stored|]. split; [|done].
      by apply (NoDup_ids_middle Manuscript.id pre old).
    + eexists _, ds. split; [exact Hread|].
      split; [by eapply getDocuments_typed_stored|]. split; [|done].
      by apply (NoDup_ids_end Manuscript.id).
  - rewrite (deleteManuscript_run mid ms ds w Hms Hds). eexists.
    split; [reflexivity|]. eexists _, _.
    split.
    { eapply getManuscripts_typed_stored; [|apply getManuscripts_typed_put].
      by rewrite stored_put_ne. }
    split; [apply getDocuments_typed_put|].
    split; by apply NoDup_fmap_filter.
  - destruct (saveDocument_stored doc ds w Hds)
      as (saved & w' & -> & _ & Hm & _ & Hcases).
    exists w'. split; [done|].
    destruct Hcases as [(pre & old & post & E & _ & Hold & -> & _ & Hread)
                       | (Hnone & -> & _ & Hread)].
    + subst ds. eexists ms, _.
      split; [by eapply getManuscripts_typed_stored|].
      split; [exact Hread|]. split; [done|].
      by apply (NoDup_ids_middle Document.id pre old).
    + eexists ms, _. split; [by eapply getManuscripts_typed_stored|].
      split; [exact Hread|]. split; [done|].
      by apply (NoDup_ids_end Document.id).
  - rewrite (deleteDocument_run id ds w Hds). eexists.
    split; [reflexivity|]. eexists ms, _.
    split.
    { eapply getManuscripts_typed_stored; [|exact Hms].
      by rewrite stored_put_ne. }
    split; [apply getDocuments_typed_put|].
    split; [done|]. by apply NoDup_fmap_filter.
  - eexists. split; [reflexivity|]. by apply (unique_ids_stored w).
  - rewrite (compileManuscript_run mid ms ds w Hms Hds).
    exists w. split; [|done]. by destruct (find _ ms).
Qed.

(** X6. From a store in which both collections have their declared
    types and ids are unique (an empty [localStorage] is one), every
    sequence of operations that restores no backup runs to its end, and
    in the store it leaves both collections still have their declared
    types, no two manuscripts share an id and no two documents share an
    id. *)
Theorem unique_ids_invariant (ops : list Operation) (w : World) :
  unique_ids w →
  Forall (λ op, is_restore op = false) ops →
  ∃ w', perform_all ops w = Some w' ∧ unique_ids w'.
Proof.
  intros Hw Hops. revert w Hw.
  induction Hops as [|op ops Hop _ IH]; intros w Hw; simpl.
  - by exists w.
  - destruct (perform_unique_ids op w Hw Hop) as (w1 & -> & Hw1).
    by apply IH.
Qed.

Lemma perform_all_arrays_stored ops : ∀ w w',
  arrays_stored w → perform_all ops w = Some w' → arrays_stored w'.
Proof.
  induction ops as [|op ops IH]; intros w w' Hw; simpl.
  - by intros [= <-].
  - destruct (perform op w) as [w1|] eqn:Hop; [|done].
    apply IH. by eapply perform_arrays_stored.
Qed.

Lemma restoreBackup_returns blob w :
  ∃ accepted w', restoreBackup blob w = Done accepted w'.
Proof.
  unfold restoreBackup.
  destruct (JSON_parse blob) as [data|]; [|by eexists _, _].
  destruct (get_prop data "manuscripts") as [[[| | | |ms|]|]|];
    try (by eexists _, _).
  destruct (get_prop data "documents") as [[[| | | |ds|]|]|];
    try (by eexists _, _).
  unfold bind. simpl.
  destruct (get_prop data "userSettings") as [us|]; simpl;
    [destruct (truthy us); [destruct us|]|]; by eexists _, _.
Qed.

Lemma perform_whole_entries op w :
  uses_records op = false → ∃ w', perform op w = Some w'.
Proof.
  destruct op as [settings|manuscript|mid|doc|id| |blob|mid];
    simpl; try done; intros _; try (by eexists).
  destruct (restoreBackup_returns blob w) as (accepted & w' & ->).
  by exists w'.
Qed.

(** X7. [restoreBackup] never leaves a collection that is not an
    array. From a store whose manuscripts and documents entries are
    read as arrays (an empty [localStorage] is one), every sequence of
    [restoreBackup] calls on arbitrary blobs, [createBackup] calls and
    [saveUserSettings] calls returns, and afterwards [getManuscripts]
    and [getDocuments] return arrays. *)
Theorem collections_stay_arrays (ops : list Operation) (w : World) :
  arrays_stored w →
  Forall (λ op, uses_records op = false) ops →
  ∃ w' ms ds,
    perform_all ops w = Some w'
    ∧ getManuscripts w' = Done (JArr ms) w'
    ∧ getDocuments w' = Done (JArr ds) w'.
Proof.
  intros Hw Hops.
  assert (∃ w', perform_all ops w = Some w') as [w' Hrun].
  { clear Hw. revert w.
    induction Hops as [|op ops Hop _ IH]; intros w; simpl; [by eexists|].
    destruct (perform_whole_entries op w Hop) as [w1 ->]. apply IH. }
  destruct (perform_all_arrays_stored ops w w' Hw Hrun)
    as [[ms Hms] [ds Hds]].
  exists w', ms, ds. split; [exact Hrun|].
  by rewrite getManuscripts_run, getDocuments_run, Hms, Hds.
Qed.

(** *** Reading *)

(** X8. An entry of [localStorage] that is absent, empty or not JSON is
    read as if nothing had been stored: [getDocuments] returns [[]],
    [getDocument] finds nothing, and the next [saveDocument] stores the
    saved document alone, overwriting the entry; likewise
    [getManuscripts] returns [[]] and [getUserSettings] returns
    [null]. *)
Theorem unreadable_entries_read_empty (doc : Document.t) (w : World) :
  unreadable (localStorage w !! DOCS_KEY) →
  getDocuments w = Done (JArr []) w
  ∧ getDocument (Document.id doc) w = Done None w
  ∧ (∃ saved w',
       saveDocument doc w = Done saved w'
       ∧ getDocuments_typed w' = Done [saved] w')
  ∧ (unreadable (localStorage w !! MANUSCRIPTS_KEY) →
       getManuscripts w = Done (JArr []) w)
  ∧ (unreadable (localStorage w !! USER_SETTINGS_KEY) →
       getUserSettings w = Done JNull w).
Proof.
  assert (∀ dflt data, unreadable data → parse_or dflt data = dflt) as Hdflt.
  { intros dflt [s|]; [|done]. simpl. intros [-> | Hs]; [done|].
    rewrite Hs. by destruct (negb _). }
  intros Hd.
  assert (getDocuments_typed w = Done [] w) as Hds.
  { rewrite getDocuments_typed_run. unfold stored. by rewrite Hdflt. }
  split; [rewrite getDocuments_run; unfold stored; by rewrite Hdflt|].
  split; [by rewrite (getDocument_run _ _ _ Hds)|].
  split.
  { destruct (saveDocument_stored doc [] w Hds)
      as (saved & w' & Hsave & _ & _ & _
          & [(pre & old & post & E & _) | (_ & _ & _ & Hread)]).
    - by destruct pre.
    - by exists saved, w'. }
  split; intros Hu.
  - rewrite getManuscripts_run. unfold stored. by rewrite Hdflt.
  - rewrite getUserSettings_run. unfold stored. by rewrite Hdflt.
Qed.

(** X9. [saveUserSettings settings] followed by [getUserSettings]
    returns [settings], whatever was stored before; the manuscripts and
    the documents are read as before, and saving the same settings
    again changes nothing. *)
Theorem saveUserSettings_round_trip (settings : UserSettings.t) (w : World) :
  ∃ w',
    saveUserSettings settings w = Done tt w'
    ∧ getUserSettings_typed w' = Done (Some settings) w'
    ∧ stored MANUSCRIPTS_KEY (JArr []) w' = stored MANUSCRIPTS_KEY (JArr []) w
    ∧ stored DOCS_KEY (JArr []) w' = stored DOCS_KEY (JArr []) w
    ∧ saveUserSettings settings w' = Done tt w'.
Proof.
  exists (put USER_SETTINGS_KEY
            (JSON_stringify 0 (UserSettings.to_json settings)) w).
  split; [done|].
  split.
  { unfold getUserSettings_typed.
    rewrite (bind_Done _ _ _ _ _ (getUserSettings_run _)), stored_put_eq.
    unfold cast, UserSettings.nullable_of_json.
    by rewrite UserSettings_of_to_json. }
  split; [by rewrite stored_put_ne|]. split; [by rewrite stored_put_ne|].
  unfold saveUserSettings, setItem. f_equal. apply put_put.
Qed.

(** *** Backups *)


(** X11. A backup made by [createBackup] in one store (whose collections
    are read as arrays) and restored into any other store is accepted
    and makes the second store read the manuscripts and documents of
    the first; [createBackup] itself writes nothing. The user settings
    travel with the backup when the first store has settings; when it
    has none ([getUserSettings] returned [null]) the second store keeps
    its own. *)
Theorem backup_moves_library (source target : World) :
  arrays_stored source →
  ∃ blob source' target',
    createBackup source = Done blob source'
    ∧ localStorage source' = localStorage source
    ∧ restoreBackup blob target = Done true target'
    ∧ stored MANUSCRIPTS_KEY (JArr []) target'
      = stored MANUSCRIPTS_KEY (JArr []) source
    ∧ stored DOCS_KEY (JArr []) target' = stored DOCS_KEY (JArr []) source
    ∧ (truthy (Some (stored USER_SETTINGS_KEY JNull source)) = true →
         stored USER_SETTINGS_KEY JNull target'
         = stored USER_SETTINGS_KEY JNull source)
    ∧ (truthy (Some (stored USER_SETTINGS_KEY JNull source)) = false →
         stored USER_SETTINGS_KEY JNull target'
         = stored USER_SETTINGS_KEY JNull target).
Proof.
  intros [[ms Hms] [ds Hds]].
  rewrite createBackup_run, Hms, Hds.
  set (us := stored USER_SETTINGS_KEY JNull source).
  set (data := BackupData (JArr ms) (JArr ds) us 1
                 (clock source (reads source))).
  exists (JSON_stringify 2 data), (tick source).
  rewrite (restoreBackup_run (JSON_stringify 2 data) data ms ds target
             (parse_stringify 2 data) eq_refl eq_refl).
  change (field data "userSettings") with (Some us). cbv zeta iota beta.
  eexists. split; [done|]. split; [done|]. split; [reflexivity|].
  destruct (truthy (Some us)); stored_put; by repeat split.
Qed.

End StoreMore.

Section RestoreTwice.
Context `{JSONBuiltins}.

(** X12. Restoring the same blob a second time returns the same answer
    as the first time and leaves [localStorage] exactly as the first
    restore left it, whatever the blob and whatever [JSON.parse] and
    [JSON.stringify] compute. *)
Theorem restoreBackup_idempotent (blob : string) (w : World) :
  ∃ accepted w',
    restoreBackup blob w = Done accepted w'
    ∧ restoreBackup blob w' = Done accepted w'.
Proof.
  unfold restoreBackup.
  destruct (JSON_parse blob) as [data|]; [|by exists false, w].
  destruct (get_prop data "manuscripts") as [[[| | | |ms|]|]|];
    try (by exists false, w).
  destruct (get_prop data "documents") as [[[| | | |ds|]|]|];
    try (by exists false, w).
  unfold bind. simpl. fold (put MANUSCRIPTS_KEY (JSON_stringify 0 (JArr ms)) w).
  destruct (get_prop data "userSettings") as [us|]; simpl;
    [destruct (truthy us); [destruct us as [us|]|]|]; simpl.
  - eexists true, _. split; [reflexivity|]. f_equal.
    apply (put_restored_settings MANUSCRIPTS_KEY _ DOCS_KEY _
             USER_SETTINGS_KEY _ w).
  - eexists true, _. split; [reflexivity|]. f_equal.
    apply (put_restored MANUSCRIPTS_KEY _ DOCS_KEY _ w).
  - eexists true, _. split; [reflexivity|]. f_equal.
    apply (put_restored MANUSCRIPTS_KEY _ DOCS_KEY _ w).
  - eexists false, _. split; [reflexivity|]. f_equal.
    apply (put_restored MANUSCRIPTS_KEY _ DOCS_KEY _ w).
Qed.

End RestoreTwice.

(* ===================================================================== *)
(** * Part X: the speech hook over whole sessions                         *)
(* ===================================================================== *)

Module SpeechTraceFacts.
Import Speech SpeechSpec SpeechTraces SpeechFacts.

Lemma run_snoc st actions a : run st (actions ++ [a]) = step (run st actions) a.
Proof. unfold run. by rewrite fold_left_app. Qed.

(** *** The recognition object *)

Lemma started_once_call c r :
  c ≠ CallStart → started_once r → started_once (call c r).
Proof.
  intros Hc (H1 & H2 & H3 & later & Hcalls & Hlater).
  repeat split; try done. exists (later ++ [c]). simpl. rewrite Hcalls.
  split; [done|]. rewrite elem_of_app, list_elem_of_singleton.
  intros [?|?]; [done|by apply Hc].
Qed.

Lemma step_started_once st a :
  recognition_started_once st → recognition_started_once (step st a).
Proof.
  unfold recognition_started_once. intros Hst.
  assert (started_once (call CallStart new_recognition)) as Hnew.
  { repeat split. exists []. split; [done|]. apply not_elem_of_nil. }
  destruct a as [[]| | | | | |e|e]; simpl;
    try (by destruct (onerror_frame e st) as (_ & _ & _ & ->));
    try (by destruct (onresult_frame e st) as (_ & _ & ->));
    destruct st as [listening err [r|] confirmed interim]; simpl in *;
    try done; by apply started_once_call.
Qed.

(** X13. Whatever the user and the backend do after the hook is
    mounted, the recognition object the hook holds, if it holds one, is
    configured with [continuous] and [interimResults] set and [lang]
    [en-US], and [start()] was called on it exactly once, before any
    [stop()] or [abort()]: the hook never starts the same object
    twice. *)
Theorem recognition_started_exactly_once (actions : list Action) :
  recognition_started_once (run initial actions).
Proof.
  induction actions as [|a actions IH] using rev_ind; [done|].
  rewrite run_snoc. by apply step_started_once.
Qed.

(** *** The error channel *)

Lemma step_error st a : writes_error a = false → error (step st a) = error st.
Proof.
  destruct a as [supported| | |text| | |e|e]; simpl; try done.
  - intros _. unfold stopListening, stopListening_closure.
    by destruct (recognitionRef st).
  - intros _. unfold resetTranscript. simpl. by destruct (recognitionRef st).
  - intros He. apply negb_false_iff in He. apply String.eqb_eq in He.
    by subst e.
  - intros _. apply onresult_frame.
Qed.

(** X14. Only [startListening] and an error event other than
    [no-speech] write to the error channel. Over any sequence of other
    actions (stop, reset, loading a text, results, [onstart], [onend],
    [no-speech]) the error stays what it was: a message that is shown
    stays until the next start, after a start in a browser that
    supports recognition no message appears, and after a start in one
    that does not the message saying so stays. *)
Theorem error_kept_until_written
    (st : HookState) (actions : list Action) :
  Forall (λ a, writes_error a = false) actions →
  error (run st actions) = error st
  ∧ error (run (startListening true st) actions) = None
  ∧ error (run (startListening false st) actions) = Some unsupported_message.
Proof.
  intros Hactions.
  assert (∀ st', error (run st' actions) = error st') as Hkept.
  { induction Hactions as [|a actions Ha _ IH]; intros st'; [done|].
    simpl. change (fold_left step actions (step st' a))
      with (run (step st' a) actions).
    by rewrite IH, step_error. }
  split; [apply Hkept|]. rewrite !Hkept. split; [|done].
  unfold startListening. simpl. by destruct (recognitionRef st).
Qed.

(** *** The listening flag *)

Lemma step_isListening st a :
  isListening (step st a) = default (isListening st) (sets_listening a).
Proof.
  destruct a as [supported| | |text| | |e|e]; simpl; try done.
  - unfold startListening. simpl. destruct supported; simpl; [|done].
    by destruct (recognitionRef st).
  - unfold stopListening, stopListening_closure.
    by destruct (recognitionRef st).
  - apply onerror_frame.
  - apply onresult_frame.
Qed.

(** X15. [isListening] follows the backend, not the buttons: after any
    sequence of actions it is [true] exactly when the last of the
    [onstart], [onend], [onerror] events and resets in the sequence is
    an [onstart] (and it is what it was when there is none);
    [startListening], [stopListening], [setTranscript] and result
    events never change it. *)
Theorem isListening_follows_lifecycle
    (st : HookState) (actions : list Action) :
  isListening (run st actions)
  = default (isListening st) (last (omap sets_listening actions)).
Proof.
  induction actions as [|a actions IH] using rev_ind; [done|].
  rewrite run_snoc, step_isListening, omap_app. simpl.
  destruct (sets_listening a) as [b|]; simpl.
  - by rewrite last_snoc.
  - by rewrite app_nil_r.
Qed.

(** *** Results that arrive after a stop *)

(** X16. Once a session has been started, result events that the
    backend delivers after [stopListening] are appended after the
    interim text that the stop has folded into [confirmedText]: the
    text is the confirmed text of before, the interim text of the
    moment of the stop, and the final segments of every later event, in
    this order. A second [stopListening] adds nothing. *)
Theorem results_after_stop
    (st : HookState) (events : list SpeechRecognitionEvent) :
  session_started st →
  confirmedText (run (stopListening st) (OnResult <$> events))
  = (confirmedText st +:+ interimText st) +:+ all_final_segments events
  ∧ confirmedText (stopListening (stopListening st))
    = confirmedText (stopListening st).
Proof.
  intros [r Hr]. rewrite run_onresult_confirmedText.
  unfold stopListening, stopListening_closure. rewrite Hr. simpl.
  by rewrite append_nil_r.
Qed.

End SpeechTraceFacts.

(* ===================================================================== *)
(** * Part XI: the application's handlers                                 *)
(* ===================================================================== *)

Module AppFacts.
Import Speech.

Section AppFacts.
Context `{JSONLaws}.

Lemma handleSaveDocument_run uuid app w :
  App.handleSaveDocument uuid app w
  = match saveDocument (App.docToSave uuid app w) (tick (tick w)) with
    | Done savedDoc w' =>
        Done (if negb (App.truthy_id (App.currentDocId app))
              then App.setCurrentDocId (Some (Document.id savedDoc)) app
              else app) w'
    | IllTyped => IllTyped
    end.
Proof.
  unfold App.handleSaveDocument, handleSaveDocument, App.docToSave, tick.
  unfold bind, Date_now. simpl.
  destruct (saveDocument _ _); [|done].
  by destruct (negb (App.truthy_id _)).
Qed.

Lemma docToSave_fresh uuid app w :
  uuid ≠ "" → Document.id (App.docToSave uuid app w) ≠ "".
Proof.
  intros Huuid. unfold App.docToSave. simpl.
  destruct (App.currentDocId app) as [id|]; [|done].
  by destruct (String.eqb_spec id "") as [->|Hid].
Qed.

Lemma docToSave_current uuid app w id :
  App.currentDocId app = Some id → id ≠ "" →
  Document.id (App.docToSave uuid app w) = id.
Proof.
  intros Hcur Hid. unfold App.docToSave. simpl. rewrite Hcur.
  by apply String.eqb_neq in Hid as ->.
Qed.

Lemma docToSave_id uuid app w :
  Document.id (App.docToSave uuid app w) ≠ "" →
  (if negb (App.truthy_id (App.currentDocId app))
   then Some (Document.id (App.docToSave uuid app w))
   else App.currentDocId app)
  = Some (Document.id (App.docToSave uuid app w)).
Proof.
  unfold App.docToSave, App.truthy_id. simpl.
  destruct (App.currentDocId app) as [id|]; [|done].
  by destruct (String.eqb_spec id "") as [->|Hid].
Qed.

(** What [App.handleSaveDocument] leaves: the document handed to the
    store is read back under its id, and that id is the current one
    from now on. *)
Lemma handleSaveDocument_saved uuid app ds w :
  getDocuments_typed w = Done ds w →
  Document.id (App.docToSave uuid app w) ≠ "" →
  ∃ app' w' saved,
    App.handleSaveDocument uuid app w = Done app' w'
    ∧ saveDocument (App.docToSave uuid app w) (tick (tick w)) = Done saved w'
    ∧ app' = App.setCurrentDocId (Some (Document.id saved)) app
    ∧ Document.id saved = Document.id (App.docToSave uuid app w)
    ∧ Document.id saved ≠ ""
    ∧ getDocument (Document.id saved) w' = Done (Some saved) w'
    ∧ Document.title saved = Document.title (App.docToSave uuid app w)
    ∧ Document.rawText saved = fullTranscript (App.speech app)
    ∧ Document.polishedText saved = App.polishedText app
    ∧ Document.tags saved = App.docTags app
    ∧ Document.manuscriptId saved = App.currentManuscriptId app.
Proof.
  intros Hds Huuid. rewrite handleSaveDocument_run.
  destruct (saveDocument_getDocument (App.docToSave uuid app w) ds
              (tick (tick w)) (getDocuments_typed_tick _ _ Hds))
    as (saved & w' & -> & Hget & Hid & Hti & Hraw & Hpol & Htags & Hm & _).
  pose proof (docToSave_id uuid app w Huuid) as Hcur.
  exists (App.setCurrentDocId (Some (Document.id saved)) app), w', saved.
  split.
  { f_equal. destruct (negb (App.truthy_id (App.currentDocId app))); [done|].
    rewrite Hid. rewrite <- Hcur. by destruct app. }
  split; [done|]. split; [done|]. split; [done|].
  split; [by rewrite Hid|]. split; [by rewrite Hid|]. done.
Qed.

Lemma fullTranscript_stopped app :
  fullTranscript (if App.recording app then stopListening (App.speech app)
                  else App.speech app)
  = fullTranscript (App.speech app).
Proof.
  destruct (App.recording app); [|done].
  unfold stopListening, stopListening_closure, fullTranscript.
  destruct (App.speech app) as [listening err [r|] confirmed interim];
    simpl; [|done]. by rewrite append_nil_r.
Qed.

Lemma has_content_true app :
  App.has_content app →
  negb (String.eqb (fullTranscript (App.speech app)) "")
  || negb (String.eqb (App.docTitle app) "") = true.
Proof.
  intros [Ht|Ht]; apply String.eqb_neq in Ht; rewrite Ht; simpl;
    [done|apply orb_true_r].
Qed.

(** X17. A click on Library that is not declined, with a transcript or
    a title to save, stores the document before the view changes, and
    what it stores is what the author sees: [rawText] is the whole
    visible transcript, interim words included, also when the click is
    what stops the recording; title (or [Untitled Manuscript] when it
    is empty), polished text, tags and manuscript are those of the
    editor. The document is read back by [getDocument] under the id
    that is the current one afterwards. *)
Theorem library_click_saves_transcript
    (confirmed : bool) (uuid : string) (app : App.State)
    (ds : list Document.t) (w : World) :
  getDocuments_typed w = Done ds w →
  uuid ≠ "" →
  App.has_content app →
  (App.recording app = true → confirmed = true) →
  ∃ app' w' saved,
    App.handleNavClick confirmed uuid App.LIBRARY app w = Done app' w'
    ∧ App.view app' = App.LIBRARY
    ∧ App.currentDocId app' = Some (Document.id saved)
    ∧ Document.id saved ≠ ""
    ∧ getDocument (Document.id saved) w' = Done (Some saved) w'
    ∧ Document.rawText saved = fullTranscript (App.speech app')
    ∧ fullTranscript (App.speech app') = fullTranscript (App.speech app)
    ∧ Document.title saved
      = (if decide (App.docTitle app = "") then "Untitled Manuscript"
         else App.docTitle app)
    ∧ Document.polishedText saved = App.polishedText app
    ∧ Document.tags saved = App.docTags app
    ∧ Document.manuscriptId saved = App.currentManuscriptId app.
Proof.
  intros Hds Huuid Hcontent Hconfirmed.
  destruct (handleSaveDocument_saved uuid app ds w Hds
              (docToSave_fresh uuid app w Huuid))
    as (app1 & w' & saved & Hsave & _ & -> & _ & Hne & Hget & Hti & Hraw
        & Hpol & Htags & Hm).
  unfold App.handleNavClick.
  assert (App.recording app && negb confirmed = false) as ->.
  { destruct (App.recording app); [|done]. by rewrite Hconfirmed. }
  rewrite bool_decide_eq_true_2 by done. simpl andb.
  rewrite (has_content_true app Hcontent).
  rewrite (bind_Done _ _ _ _ _ Hsave). unfold ret.
  eexists _, w', saved. split; [reflexivity|]. simpl.
  rewrite fullTranscript_stopped.
  repeat (split; [done|]). split; [|done].
  rewrite Hti. unfold App.docToSave. simpl.
  case_decide as Ht; [by rewrite Ht|].
  apply String.eqb_neq in Ht. by rewrite Ht.
Qed.

(** X18. A new document is inserted once. The first save of a document
    that has no id yet stores it at the end of the list under the id
    that [crypto.randomUUID()] returned (not empty, not yet stored) and
    makes that id the current one; every later save with that current
    id, whatever has been edited in between and whatever
    [crypto.randomUUID()] would return, replaces that record where it
    stands: the list has the same length and the same other documents,
    and the record carries the transcript, polished text and tags of
    the moment of the save. *)
Theorem saving_again_updates_in_place
    (uuid : string) (app : App.State) (ds : list Document.t) (w : World) :
  getDocuments_typed w = Done ds w →
  App.currentDocId app = None →
  uuid ≠ "" →
  uuid ∉ Document.id <$> ds →
  ∃ app1 w1 first,
    App.handleSaveDocument uuid app w = Done app1 w1
    ∧ App.currentDocId app1 = Some uuid
    ∧ getDocuments_typed w1 = Done (ds ++ [first]) w1
    ∧ Document.id first = uuid
    ∧ ∀ (edited : App.State) (uuid' : string),
        App.currentDocId edited = Some uuid →
        ∃ app2 w2 second,
          App.handleSaveDocument uuid' edited w1 = Done app2 w2
          ∧ App.currentDocId app2 = Some uuid
          ∧ getDocuments_typed w2 = Done (ds ++ [second]) w2
          ∧ Document.id second = uuid
          ∧ Document.rawText second = fullTranscript (App.speech edited)
          ∧ Document.polishedText second = App.polishedText edited
          ∧ Document.tags second = App.docTags edited.
Proof.
  intros Hds Hnone Huuid Hfresh.
  assert (Forall (λ d, Document.id d ≠ uuid) ds) as Hall.
  { apply Forall_forall. intros d Hd E. apply Hfresh.
    apply list_elem_of_fmap. eauto. }
  assert (Document.id (App.docToSave uuid app w) = uuid) as Hid
    by (unfold App.docToSave; simpl; by rewrite Hnone).
  rewrite handleSaveDocument_run.
  destruct (saveDocument_stored (App.docToSave uuid app w) ds (tick (tick w))
              (getDocuments_typed_tick _ _ Hds))
    as (first & w1 & -> & _ & _ & _
        & [(pre & old & post & -> & _ & Hold & _) | (_ & Hfirst & _ & Hread)]).
  { destruct Hfresh. rewrite <- Hid, <- Hold. apply elem_of_fmap_middle. }
  assert (Document.id first = uuid) as Hfid by (by rewrite Hfirst).
  rewrite Hnone. simpl.
  eexists _, w1, first. split; [reflexivity|].
  split; [simpl; by rewrite Hfid|]. split; [exact Hread|]. split; [done|].
  intros edited uuid' Hcur.
  assert (Document.id (App.docToSave uuid' edited w1) = uuid) as Hid'
    by (by apply docToSave_current).
  rewrite handleSaveDocument_run.
  destruct (saveDocument_stored (App.docToSave uuid' edited w1) (ds ++ [first])
              (tick (tick w1)) (getDocuments_typed_tick _ _ Hread))
    as (second & w2 & -> & _ & _ & _
        & [(pre & old & post & E & Hpre & Hold & Hsecond & _ & Hread2)
          | (Hno & _)]).
  - rewrite Hid' in Hpre, Hold.
    destruct (middle_unique (λ d, Document.id d ≠ uuid) ds pre [] post
                first old E Hall Hpre) as (-> & -> & ->);
      [by intros []|by intros []|].
    rewrite Hcur. simpl.
    assert (negb (negb (uuid =? "")) = false) as ->
      by (by destruct (String.eqb_spec uuid "") as [->|_]).
    eexists _, w2, second. split; [reflexivity|]. split; [done|].
    split; [exact Hread2|]. by rewrite Hsecond.
  - rewrite Hid' in Hno. apply Forall_app in Hno as [_ Hno].
    apply Forall_cons in Hno as [Hno _]. done.
Qed.

(** X19. Opening a stored document (the first with its id, the id not
    empty) and saving it at once replaces that record where it stands
    and keeps its id, manuscript, raw text, polished text and tags; the
    title is kept unless it was empty, in which case it becomes
    [Untitled Manuscript]. Both timestamps are renewed: [updatedAt] is
    the clock reading the store takes, and [createdAt] is the reading
    the handler took when it built the record, not the one stored at
    the first insert. *)
Theorem open_then_save_round_trip
    (uuid : string) (doc : Document.t) (app : App.State)
    (pre post : list Document.t) (w : World) :
  getDocuments_typed w = Done (pre ++ doc :: post) w →
  Forall (λ d, Document.id d ≠ Document.id doc) pre →
  Document.id doc ≠ "" →
  ∃ app' w' saved,
    App.handleSaveDocument uuid (App.handleOpenDocument doc app) w
    = Done app' w'
    ∧ getDocuments_typed w' = Done (pre ++ saved :: post) w'
    ∧ App.currentDocId app' = Some (Document.id doc)
    ∧ Document.id saved = Document.id doc
    ∧ Document.manuscriptId saved = Document.manuscriptId doc
    ∧ Document.rawText saved = Document.rawText doc
    ∧ Document.polishedText saved = Document.polishedText doc
    ∧ Document.tags saved = Document.tags doc
    ∧ Document.title saved
      = (if decide (Document.title doc = "") then "Untitled Manuscript"
         else Document.title doc)
    ∧ Document.createdAt saved = clock w (reads w)
    ∧ Document.updatedAt saved = clock w (S (S (reads w))).
Proof.
  intros Hds Hpre Hid.
  set (opened := App.handleOpenDocument doc app).
  assert (Document.id (App.docToSave uuid opened w) = Document.id doc) as Hid'
    by (by apply docToSave_current).
  rewrite handleSaveDocument_run.
  destruct (saveDocument_stored (App.docToSave uuid opened w) _ (tick (tick w))
              (getDocuments_typed_tick _ _ Hds))
    as (saved & w' & -> & _ & _ & _
        & [(pre' & old & post' & E & Hpre' & Hold & Hsaved & _ & Hread)
          | (Hno & _)]).
  - rewrite Hid' in Hpre', Hold.
    destruct (middle_unique (λ d, Document.id d ≠ Document.id doc)
                pre pre' post post' doc old E Hpre Hpre')
      as (-> & -> & ->); [by intros []|by intros []|].
    simpl. apply String.eqb_neq in Hid. rewrite Hid. simpl.
    eexists _, w', saved. split; [reflexivity|]. split; [exact Hread|].
    split; [done|]. rewrite Hsaved. simpl. rewrite Hid. simpl.
    unfold fullTranscript. simpl. rewrite append_nil_r.
    repeat (split; [done|]). split; [|done].
    case_decide as Ht; [by rewrite Ht|].
    apply String.eqb_neq in Ht. by rewrite Ht.
  - rewrite Hid' in Hno. apply Forall_app in Hno as [_ Hno].
    apply Forall_cons in Hno as [Hno _]. done.
Qed.

(** X20. [handleDeleteDocument] removes the current document from the
    store and shows the library, and leaves every other cell as it is,
    [currentDocId], title and transcript included. A click on Library
    that follows, with a title or a transcript still in those cells,
    therefore saves: a document with the deleted id and the transcript
    of the editor is in the store again. *)
Theorem deleted_document_saved_by_library_click
    (id : string) (app : App.State) (ds : list Document.t) (w : World) :
  getDocuments_typed w = Done ds w →
  App.currentDocId app = Some id →
  id ≠ "" →
  ∃ app1 w1,
    App.handleDeleteDocument app w = Done app1 w1
    ∧ app1 = App.setView App.LIBRARY app
    ∧ getDocument id w1 = Done None w1
    ∧ (App.has_content app →
       ∀ confirmed uuid,
         ∃ app2 w2 saved,
           App.handleNavClick confirmed uuid App.LIBRARY app1 w1
           = Done app2 w2
           ∧ getDocument id w2 = Done (Some saved) w2
           ∧ Document.rawText saved = fullTranscript (App.speech app)
           ∧ App.currentDocId app2 = Some id).
Proof.
  intros Hds Hcur Hid. unfold App.handleDeleteDocument. rewrite Hcur.
  pose proof Hid as Hid'. apply String.eqb_neq in Hid' as ->. simpl.
  rewrite (bind_Done _ _ _ _ _ (deleteDocument_run id ds w Hds)).
  eexists _, _. split; [reflexivity|]. split; [done|].
  pose proof (getDocuments_typed_put (filter (λ d, Document.id d ≠ id) ds) w)
    as Hread.
  split.
  { rewrite (getDocument_run _ _ _ Hread). f_equal.
    apply find_filter_none. intros d Hd%String.eqb_eq. tauto. }
  intros Hcontent confirmed uuid.
  set (app1 := App.setView App.LIBRARY app).
  set (w1 := put DOCS_KEY _ w) in *.
  unfold App.handleNavClick.
  assert (App.recording app1 && negb confirmed = false) as -> by done.
  assert (App.recording app1 = false) as -> by done.
  rewrite bool_decide_eq_true_2 by done.
  rewrite (has_content_true app1 Hcontent).
  assert (Document.id (App.docToSave uuid app1 w1) = id) as Hdoc
    by (by apply docToSave_current).
  destruct (handleSaveDocument_saved uuid app1 _ w1 Hread)
    as (app2 & w2 & saved & Hsave & _ & -> & Hsid & _ & Hget & _ & Hraw & _);
    [by rewrite Hdoc|].
  rewrite (bind_Done _ _ _ _ _ Hsave). unfold ret.
  rewrite Hsid, Hdoc in Hget. rewrite Hsid, Hdoc.
  by eexists _, w2, saved.
Qed.

End AppFacts.

Section AppFrame.
Context `{JSONBuiltins}.

(** X21. [handleNavClick] writes to the store only on its way to the
    library with something to save. A click that the author declines
    while recording changes nothing at all, neither the view nor the
    hook; a click that goes elsewhere, or that finds neither transcript
    nor title, changes the view (and stops the recording if there is
    one) and leaves [localStorage] and the clock untouched, whatever
    the store holds. In particular a new document that is left for the
    library before anything is dictated or typed is not stored. *)
Theorem nav_click_without_saving
    (confirmed : bool) (uuid : string) (targetView : App.AppState)
    (manuscriptId : option string) (app : App.State) (w : World) :
  (App.recording app = true → confirmed = false →
     App.handleNavClick confirmed uuid targetView app w = Done app w)
  ∧ ((App.recording app = true → confirmed = true) →
     targetView ≠ App.LIBRARY
     ∨ (fullTranscript (App.speech app) = "" ∧ App.docTitle app = "") →
     App.handleNavClick confirmed uuid targetView app w
     = Done (App.setView targetView
               (App.setSpeech
                  (if App.recording app then stopListening (App.speech app)
                   else App.speech app) app)) w)
  ∧ App.handleNavClick confirmed uuid App.LIBRARY
      (App.handleNewDocument manuscriptId app) w
    = Done (App.setView App.LIBRARY (App.handleNewDocument manuscriptId app)) w.
Proof.
  split; [|split].
  - intros Hrec ->. unfold App.handleNavClick. by rewrite Hrec.
  - intros Hconfirmed Hnothing. unfold App.handleNavClick.
    assert (App.recording app && negb confirmed = false) as ->.
    { destruct (App.recording app); [|done]. by rewrite Hconfirmed. }
    assert (bool_decide (targetView = App.LIBRARY)
            && (negb (String.eqb (fullTranscript (App.speech app)) "")
                || negb (String.eqb (App.docTitle app) "")) = false) as ->.
    { destruct Hnothing as [Ht | [-> ->]].
      - by rewrite bool_decide_eq_false_2.
      - apply andb_false_r. }
    done.
  - by destruct app as [v c m t tags p [listening err [r|] confirmedT interim]].
Qed.

End AppFrame.
End AppFacts.

(* ===================================================================== *)
(** * Part XII: the library and the application at work                   *)
(* ===================================================================== *)

Module StudioFacts.
Import Speech SpeechSpec SpeechTraces Library Studio JSONText JSONTextFacts.

(** X1 on the library: saving a revision of chapter B keeps the five ids in
    their order and chapter C as it was. *)
Lemma saveDocument_keeps_other_documents_witness :
  ∃ saved w' ds',
    saveDocument revised_B library = Done saved w'
    ∧ getDocuments_typed w' = Done ds' w'
    ∧ Document.id <$> ds' = ["a"; "b"; "c"; "d"; "e"]
    ∧ find (λ d, String.eqb (Document.id d) "c") ds' = Some chapterC.
Proof.
  destruct (saveDocument_keeps_other_documents revised_B documents library
              LibraryFacts.library_documents)
    as (saved & w' & ds' & Hsave & Hread & _ & Hids & Hfind & _).
  exists saved, w', ds'. split; [exact Hsave|]. split; [exact Hread|].
  split; [exact Hids|]. exact (Hfind "c" ltac:(discriminate)).
Defined.

(** X2 on the library: the memoir is stored under its new title, in its
    place. *)
Lemma saveManuscript_upsert_witness :
  ∃ saved w' ms',
    saveManuscript retitled_memoir library = Done saved w'
    ∧ getManuscripts_typed w' = Done ms' w'
    ∧ Manuscript.title saved = "Memoirs"
    ∧ Manuscript.id <$> ms' = ["m1"; "m2"].
Proof.
  destruct (saveManuscript_upsert retitled_memoir manuscripts library
              LibraryFacts.library_manuscripts)
    as (saved & w' & ms' & Hsave & Hread & _ & _ & Htitle & _ & _ & Hids & _).
  exists saved, w', ms'. split; [exact Hsave|]. split; [exact Hread|].
  split; [exact Htitle | exact Hids].
Defined.

(** X6 on a day of work that starts from an empty [localStorage]. *)
Lemma unique_ids_invariant_witness :
  ∃ w', perform_all working_day empty_world = Some w' ∧ unique_ids w'.
Proof.
  apply (unique_ids_invariant working_day empty_world).
  - apply unique_ids_fresh.
  - repeat constructor.
Defined.

(** X4 on the library: chapter B is gone, the four other documents
    stay. *)
Lemma deleteDocument_removes_witness :
  ∃ w', deleteDocument "b" library = Done tt w'
        ∧ getDocuments_typed w'
          = Done [chapterA; chapterC; childhood; note] w'
        ∧ getDocument "b" w' = Done None w'.
Proof.
  destruct (deleteDocument_removes "b" documents library
              LibraryFacts.library_documents)
    as (w' & Hrun & Hread & Hgone & _).
  exists w'. split; [exact Hrun|]. split; [exact Hread | exact Hgone].
Defined.

Lemma damaged_world_unreadable :
  unreadable (localStorage damaged_world !! DOCS_KEY).
Proof. right. vm_compute. reflexivity. Qed.

(** X8 on a store whose documents entry is not JSON: it reads as empty
    and the next save leaves one document. *)
Lemma unreadable_entries_read_empty_witness :
  getDocuments damaged_world = Done (JArr []) damaged_world
  ∧ ∃ saved w', saveDocument chapterA damaged_world = Done saved w'
                ∧ getDocuments_typed w' = Done [saved] w'.
Proof.
  destruct (unreadable_entries_read_empty chapterA damaged_world
              damaged_world_unreadable) as (Hread & _ & Hsave & _).
  split; [exact Hread | exact Hsave].
Defined.


(** X11: a backup of the library restored into an empty store brings
    the manuscripts and the documents along. *)
Lemma backup_moves_library_witness :
  ∃ blob source' target',
    createBackup library = Done blob source'
    ∧ restoreBackup blob empty_world = Done true target'
    ∧ getManuscripts_typed target' = Done manuscripts target'
    ∧ getDocuments_typed target' = Done documents target'.
Proof.
  destruct (backup_moves_library library empty_world
              LibraryFacts.library_arrays_stored)
    as (blob & source' & target' & Hbackup & _ & Hrestore & Hms & Hds & _).
  exists blob, source', target'. split; [exact Hbackup|].
  split; [exact Hrestore|].
  split.
  - exact (getManuscripts_typed_stored library target' manuscripts Hms
             LibraryFacts.library_manuscripts).
  - exact (getDocuments_typed_stored library target' documents Hds
             LibraryFacts.library_documents).
Defined.

(** X5 on the library: once the novel is deleted it compiles to
    nothing, and the memoir compiles as before. *)
Lemma compileManuscript_after_delete_witness :
  ∃ w', deleteManuscript "m1" library = Done tt w'
        ∧ compileManuscript "m1" w' = Done "" w'
        ∧ ∃ text, compileManuscript "m2" library = Done text library
                  ∧ compileManuscript "m2" w' = Done text w'.
Proof.
  destruct (compileManuscript_after_delete "m1" manuscripts documents library
              LibraryFacts.library_manuscripts LibraryFacts.library_documents)
    as (_ & w' & Hrun & Hempty & _ & Hother).
  exists w'. split; [exact Hrun|]. split; [exact Hempty|].
  exact (Hother "m2" ltac:(discriminate)).
Defined.

(** X7 on the library, on a day of restores of whatever is at hand. *)
Lemma collections_stay_arrays_witness :
  ∃ w' ms ds,
    perform_all careless_day library = Some w'
    ∧ getManuscripts w' = Done (JArr ms) w'
    ∧ getDocuments w' = Done (JArr ds) w'.
Proof.
  apply (collections_stay_arrays careless_day library
           LibraryFacts.library_arrays_stored).
  repeat constructor.
Defined.

(** X9 on an empty store. *)
Lemma saveUserSettings_round_trip_witness :
  ∃ w', saveUserSettings author empty_world = Done tt w'
        ∧ getUserSettings_typed w' = Done (Some author) w'.
Proof.
  destruct (saveUserSettings_round_trip author empty_world)
    as (w' & Hrun & Hread & _).
  exists w'. split; [exact Hrun | exact Hread].
Defined.

Lemma epilogue_is_new : Document.id epilogue ∉ Document.id <$> documents.
Proof.
  intros Hin. unfold documents in Hin. rewrite !fmap_cons in Hin.
  repeat (apply elem_of_cons in Hin as [Hin|Hin]; [discriminate Hin|]).
  by apply elem_of_nil in Hin.
Qed.

(** X3 on the library: the epilogue is listed last in the memoir and not
    in the novel. *)
Lemma new_document_listed_witness :
  ∃ saved w',
    saveDocument epilogue library = Done saved w'
    ∧ getDocumentsByManuscript (Some "m2") w' = Done [childhood; saved] w'
    ∧ getDocumentsByManuscript (Some "m1") w'
      = Done [chapterA; chapterB; chapterC] w'.
Proof.
  destruct (new_document_listed epilogue documents library
              LibraryFacts.library_documents epilogue_is_new)
    as (saved & w' & Hsave & _ & Hlisted).
  exists saved, w'. split; [exact Hsave|]. split.
  - destruct (Hlisted (Some "m2")) as (listed & Hbefore & Hafter).
    rewrite (getDocumentsByManuscript_run _ _ _ LibraryFacts.library_documents)
      in Hbefore.
    injection Hbefore as <-. exact Hafter.
  - destruct (Hlisted (Some "m1")) as (listed & Hbefore & Hafter).
    rewrite (getDocumentsByManuscript_run _ _ _ LibraryFacts.library_documents)
      in Hbefore.
    injection Hbefore as <-. exact Hafter.
Defined.

(** X14 on a hook that was refused the microphone: the message stays
    through a stop, results, [no-speech], [onend], a loaded text and a
    reset, and is gone after the next start. *)
Lemma error_kept_until_written_witness :
  error refused_state = Some permission_message
  ∧ error (run refused_state quiet_actions) = Some permission_message
  ∧ error (run (startListening true refused_state) quiet_actions) = None.
Proof.
  destruct (SpeechTraceFacts.error_kept_until_written refused_state
              quiet_actions ltac:(repeat constructor)) as (Hkept & Hstart & _).
  split; [reflexivity|]. split; [exact Hkept | exact Hstart].
Defined.

(** X16 on a hook stopped while it shows the interim text [hello wor]:
    the final result that arrives afterwards is appended to it. *)
Lemma results_after_stop_witness :
  confirmedText
    (run (stopListening dictating_state)
       [OnResult {| results := [slot true "hello world"]; resultIndex := 0 |}])
  = "hello worhello world ".
Proof.
  destruct (SpeechTraceFacts.results_after_stop dictating_state
              [{| results := [slot true "hello world"]; resultIndex := 0 |}]
              ltac:(vm_compute; eauto)) as [Hlate _].
  exact Hlate.
Defined.

(** X17 on the library: leaving for the library while dictating, and
    confirming, stores the interim words. *)
Lemma library_click_saves_transcript_witness :
  ∃ app' w' saved,
    App.handleNavClick true "uuid-1" App.LIBRARY dictating library
    = Done app' w'
    ∧ App.currentDocId app' = Some (Document.id saved)
    ∧ getDocument (Document.id saved) w' = Done (Some saved) w'
    ∧ Document.rawText saved = fullTranscript (App.speech app')
    ∧ fullTranscript (App.speech app') = "hello wor".
Proof.
  destruct (AppFacts.library_click_saves_transcript true "uuid-1" dictating
              documents library LibraryFacts.library_documents
              ltac:(discriminate) ltac:(left; discriminate) ltac:(done))
    as (app' & w' & saved & Hrun & _ & Hcur & _ & Hget & Hraw & Hsame & _).
  exists app', w', saved. split; [exact Hrun|]. split; [exact Hcur|].
  split; [exact Hget|]. split; [exact Hraw | exact Hsame].
Defined.

Lemma uuid_is_new : "uuid-1" ∉ Document.id <$> documents.
Proof.
  intros Hin. unfold documents in Hin. rewrite !fmap_cons in Hin.
  repeat (apply elem_of_cons in Hin as [Hin|Hin]; [discriminate Hin|]).
  by apply elem_of_nil in Hin.
Qed.

(** X18 on the library: two saves of the new chapter leave one more
    document, not two. *)
Lemma saving_again_updates_in_place_witness :
  ∃ app1 w1 first,
    App.handleSaveDocument "uuid-1" dictating library = Done app1 w1
    ∧ getDocuments_typed w1 = Done (documents ++ [first]) w1
    ∧ ∃ app2 w2 second,
        App.handleSaveDocument "uuid-2" app1 w1 = Done app2 w2
        ∧ getDocuments_typed w2 = Done (documents ++ [second]) w2.
Proof.
  destruct (AppFacts.saving_again_updates_in_place "uuid-1" dictating
              documents library LibraryFacts.library_documents eq_refl
              ltac:(discriminate) uuid_is_new)
    as (app1 & w1 & first & Hrun & Hcur & Hread & _ & Hagain).
  exists app1, w1, first. split; [exact Hrun|]. split; [exact Hread|].
  destruct (Hagain app1 "uuid-2" Hcur)
    as (app2 & w2 & second & Hrun2 & _ & Hread2 & _).
  exists app2, w2, second. split; [exact Hrun2 | exact Hread2].
Defined.

(** X19 on the library: chapter B, created at 100, is opened and saved;
    it keeps its place and its text and is now created at 1000. *)
Lemma open_then_save_round_trip_witness :
  ∃ app' w' saved,
    App.handleSaveDocument "uuid-1" editing_B library = Done app' w'
    ∧ getDocuments_typed w'
      = Done [chapterA; saved; chapterC; childhood; note] w'
    ∧ Document.rawText saved = Document.rawText chapterB
    ∧ Document.createdAt chapterB = 100%Z
    ∧ Document.createdAt saved = 1000%Z.
Proof.
  destruct (AppFacts.open_then_save_round_trip "uuid-1" chapterB dictating
              [chapterA] [chapterC; childhood; note] library
              LibraryFacts.library_documents
              ltac:(repeat constructor; discriminate) ltac:(discriminate))
    as (app' & w' & saved & Hrun & Hread & _ & _ & _ & Hraw & _ & _ & _
        & Hcreated & _).
  exists app', w', saved. split; [exact Hrun|]. split; [exact Hread|].
  split; [exact Hraw|]. split; [reflexivity | exact Hcreated].
Defined.

(** X20 on the library: chapter B is deleted from the editor, and is
    stored again by the click on Library that follows. *)
Lemma deleted_document_saved_by_library_click_witness :
  ∃ app1 w1,
    App.handleDeleteDocument editing_B library = Done app1 w1
    ∧ getDocument "b" w1 = Done None w1
    ∧ ∃ app2 w2 saved,
        App.handleNavClick false "uuid-1" App.LIBRARY app1 w1 = Done app2 w2
        ∧ getDocument "b" w2 = Done (Some saved) w2.
Proof.
  destruct (AppFacts.deleted_document_saved_by_library_click "b" editing_B
              documents library LibraryFacts.library_documents eq_refl
              ltac:(discriminate))
    as (app1 & w1 & Hrun & _ & Hgone & Hagain).
  exists app1, w1. split; [exact Hrun|]. split; [exact Hgone|].
  destruct (Hagain ltac:(left; discriminate) false "uuid-1")
    as (app2 & w2 & saved & Hnav & Hback & _).
  exists app2, w2, saved. split; [exact Hnav | exact Hback].
Defined.

End StudioFacts.
